(** * Friendship request router

    A shallow embedding of [src/server/api/routers/friendship-request-router.ts]:
    the two authorization middlewares ([canSendFriendshipRequest],
    [canAnswerFriendshipRequest]) and the three mutations of
    [friendshipRequestRouter] ([send], [accept], [decline]).

    The handlers talk to a relational store through a query builder.  The
    store is modelled as explicit state (the [users] and [friendships]
    tables), every handler is a computation in a state-and-exception monad
    [Db], and each statement that reaches the store is recorded in a log, so
    that "which branch ran" and "how many rows an update touched" are
    observable. *)

From Stdlib Require Import ZArith List Bool Lia.
Import ListNotations.
Local Open Scope Z_scope.

(** ** Data model *)

(** [IdSchema]: identifiers are numbers. *)
Definition Id := Z.

(** [FriendshipStatusSchema.Values]. *)
Inductive FriendshipStatus : Type :=
| requested
| accepted
| declined.

Definition FriendshipStatus_eqb (a b : FriendshipStatus) : bool :=
  match a, b with
  | requested, requested => true
  | accepted, accepted => true
  | declined, declined => true
  | _, _ => false
  end.

(** A row of the [friendships] table, with the columns the router reads and
    writes. *)
Record Friendship : Type := mkFriendship {
  id : Id;
  userId : Id;
  friendUserId : Id;
  status : FriendshipStatus
}.

Definition setStatus (s : FriendshipStatus) (r : Friendship) : Friendship :=
  {| id := id r; userId := userId r; friendUserId := friendUserId r;
     status := s |}.

(** The store behind [ctx.db].  Rows are kept in insertion order.  The table
    declaration is not part of the router file, so the two facts about it
    that the router depends on are carried by the store itself: [nextId] is
    the generator of the [id] column, and [uniqueDirection] tells whether the
    table rejects a second row for the same [(userId, friendUserId)]. *)
Record Database : Type := mkDatabase {
  users : list Id;
  friendships : list Friendship;
  nextId : Id;
  uniqueDirection : bool
}.

Definition withFriendships (rows : list Friendship) (d : Database) : Database :=
  {| users := users d; friendships := rows; nextId := nextId d;
     uniqueDirection := uniqueDirection d |}.

(** ** Errors, statements and the [Db] monad *)

Inductive TRPCCode : Type :=
| BAD_REQUEST.

(** What a handler can throw: a [TRPCError] raised by a middleware, or the
    store's own error when an insert violates the uniqueness constraint. *)
Inductive Error : Type :=
| TRPCError (code : TRPCCode)
| ConstraintViolation.

Inductive Result (A : Type) : Type :=
| Ok (a : A)
| Throw (e : Error).
Arguments Ok {A} a.
Arguments Throw {A} e.

(** The statements sent to the store, with what each one returned. *)
Inductive Statement : Type :=
| SelectFromUsers (hit : option Id)
| SelectFromFriendships (hit : option Id)
| UpdateFriendships (set : FriendshipStatus) (numUpdatedRows : nat)
| InsertIntoFriendships (u f : Id) (s : FriendshipStatus)
| Begin
| Commit
| Rollback.

Record World : Type := mkWorld {
  db : Database;
  log : list Statement
}.

Definition Db (A : Type) : Type := World -> Result A * World.

Definition ret {A : Type} (a : A) : Db A := fun w => (Ok a, w).

Definition bind {A B : Type} (m : Db A) (k : A -> Db B) : Db B :=
  fun w =>
    match m w with
    | (Ok a, w') => k a w'
    | (Throw e, w') => (Throw e, w')
    end.

Definition throw {A : Type} (e : Error) : Db A := fun w => (Throw e, w).

Notation "x <- m ;; k" := (bind m (fun x => k))
  (at level 61, m at next level, right associativity).
Notation "m ;;; k" := (bind m (fun _ => k))
  (at level 61, right associativity).

Definition issue (s : Statement) (w : World) : World :=
  {| db := db w; log := log w ++ [s] |}.

(** ** The query builder *)

(** [.where(column, '=', value)]; chained [where]s are a conjunction. *)
Definition whereId (v : Id) (r : Friendship) : bool := id r =? v.
Definition whereUserId (v : Id) (r : Friendship) : bool := userId r =? v.
Definition whereFriendUserId (v : Id) (r : Friendship) : bool :=
  friendUserId r =? v.
Definition whereStatus (s : FriendshipStatus) (r : Friendship) : bool :=
  FriendshipStatus_eqb (status r) s.

Definition andWhere (p q : Friendship -> bool) (r : Friendship) : bool :=
  p r && q r.
Infix "&&&" := andWhere (at level 40, left associativity).

(** [selectFrom('users').where('users.id', '=', v).select('id').limit(1)] *)
Definition selectFromUsers (v : Id) : Db (option Id) :=
  fun w =>
    let hit := find (fun u => u =? v) (users (db w)) in
    (Ok hit, issue (SelectFromUsers hit) w).

(** [selectFrom('friendships').where(...).select('id').executeTakeFirst()] *)
Definition selectFromFriendships (p : Friendship -> bool) : Db (option Id) :=
  fun w =>
    let hit := option_map id (find p (friendships (db w))) in
    (Ok hit, issue (SelectFromFriendships hit) w).

(** [executeTakeFirstOrThrow(() => error)] *)
Definition executeTakeFirstOrThrow {A : Type} (q : Db (option A)) (e : Error)
  : Db A :=
  r <- q ;;
  match r with
  | Some a => ret a
  | None => throw e
  end.

(** [updateTable('friendships').set({ status }).where(...).execute()]; the
    result is the number of rows updated. *)
Definition updateFriendships (s : FriendshipStatus) (p : Friendship -> bool)
  : Db nat :=
  fun w =>
    let rows := friendships (db w) in
    let n := length (filter p rows) in
    (Ok n,
     {| db := withFriendships
                (map (fun r => if p r then setStatus s r else r) rows) (db w);
        log := log w ++ [UpdateFriendships s n] |}).

Definition sameDirection (u f : Id) : Friendship -> bool :=
  whereUserId u &&& whereFriendUserId f.

(** [insertInto('friendships').values({ userId, friendUserId, status })
    .execute()]: the store generates the [id]; a store that enforces one row
    per direction rejects the statement when such a row is present. *)
Definition insertIntoFriendships (u f : Id) (s : FriendshipStatus) : Db unit :=
  fun w =>
    let d := db w in
    let w' := issue (InsertIntoFriendships u f s) w in
    if uniqueDirection d && existsb (sameDirection u f) (friendships d)
    then (Throw ConstraintViolation, w')
    else
      (Ok tt,
       {| db := {| users := users d;
                   friendships :=
                     friendships d
                     ++ [{| id := nextId d; userId := u; friendUserId := f;
                            status := s |}];
                   nextId := nextId d + 1;
                   uniqueDirection := uniqueDirection d |};
          log := log w' |}).

(** [ctx.db.transaction().execute(async (t) => body)]: all or nothing. *)
Definition transaction {A : Type} (body : Db A) : Db A :=
  fun w =>
    match body (issue Begin w) with
    | (Ok a, w') => (Ok a, issue Commit w')
    | (Throw e, w') => (Throw e, {| db := db w; log := log w' ++ [Rollback] |})
    end.

(** ** The router *)

(** [ctx.session], as left by [authGuard]: the caller is authenticated. *)
Module Session.
Record t : Type := mk { userId : Id }.
End Session.

Record Ctx : Type := mkCtx { session : Session.t }.

(** An input accepted by [SendFriendshipRequestInputSchema] and by
    [AnswerFriendshipRequestInputSchema] (the two declare the same field). *)
Module Input.
Record t : Type := mk { friendUserId : Id }.
End Input.

Definition canSendFriendshipRequest (ctx : Ctx) (rawInput : Input.t)
  : Db unit :=
  executeTakeFirstOrThrow
    (selectFromUsers (Input.friendUserId rawInput))
    (TRPCError BAD_REQUEST) ;;;
  ret tt.

Definition canAnswerFriendshipRequest (ctx : Ctx) (rawInput : Input.t)
  : Db unit :=
  executeTakeFirstOrThrow
    (selectFromFriendships
       (whereUserId (Input.friendUserId rawInput)
        &&& whereFriendUserId (Session.userId (session ctx))
        &&& whereStatus requested))
    (TRPCError BAD_REQUEST) ;;;
  ret tt.

Definition send_mutation (ctx : Ctx) (input : Input.t) : Db unit :=
  existingRequest <-
    selectFromFriendships
      (whereUserId (Session.userId (session ctx))
       &&& whereFriendUserId (Input.friendUserId input)
       &&& whereStatus declined) ;;
  match existingRequest with
  | Some existingId =>
      updateFriendships requested (whereId existingId) ;;;
      ret tt
  | None =>
      insertIntoFriendships
        (Session.userId (session ctx)) (Input.friendUserId input) requested
  end.

Definition accept_mutation (ctx : Ctx) (input : Input.t) : Db unit :=
  transaction
    (updateFriendships accepted
       (whereUserId (Input.friendUserId input)
        &&& whereFriendUserId (Session.userId (session ctx))
        &&& whereStatus requested) ;;;
     existingOppositeRequest <-
       selectFromFriendships
         (whereUserId (Session.userId (session ctx))
          &&& whereFriendUserId (Input.friendUserId input)
          &&& whereStatus requested) ;;
     match existingOppositeRequest with
     | None =>
         insertIntoFriendships
           (Session.userId (session ctx)) (Input.friendUserId input) accepted
     | Some oppositeId =>
         updateFriendships accepted (whereId oppositeId) ;;;
         ret tt
     end).

Definition decline_mutation (ctx : Ctx) (input : Input.t) : Db unit :=
  transaction
    (updateFriendships declined
       (whereUserId (Input.friendUserId input)
        &&& whereFriendUserId (Session.userId (session ctx))
        &&& whereStatus requested) ;;;
     ret tt).

(** [procedure.use(guard).input(schema).mutation(body)]: the middleware runs
    first and the body only after it called [next]. *)
Definition send (ctx : Ctx) (input : Input.t) : Db unit :=
  canSendFriendshipRequest ctx input ;;;
  send_mutation ctx input.

Definition accept (ctx : Ctx) (input : Input.t) : Db unit :=
  canAnswerFriendshipRequest ctx input ;;;
  accept_mutation ctx input.

Definition decline (ctx : Ctx) (input : Input.t) : Db unit :=
  canAnswerFriendshipRequest ctx input ;;;
  decline_mutation ctx input.

(** ** Requests *)

(** One request against the router: who calls, which procedure, and the
    [friendUserId] of the input. *)
Inductive Call : Type :=
| Send (caller friend : Id)
| Accept (caller friend : Id)
| Decline (caller friend : Id).

Definition as_ctx (caller : Id) : Ctx :=
  {| session := {| Session.userId := caller |} |}.

Definition as_input (friend : Id) : Input.t :=
  {| Input.friendUserId := friend |}.

Definition handler (c : Call) : Db unit :=
  match c with
  | Send a b => send (as_ctx a) (as_input b)
  | Accept a b => accept (as_ctx a) (as_input b)
  | Decline a b => decline (as_ctx a) (as_input b)
  end.

(** The outcome of one request: what the caller gets, the statements that
    were run, and the store afterwards. *)
Record Outcome : Type := mkOutcome {
  result : Result unit;
  statements : list Statement;
  after : Database
}.

Definition call (c : Call) (d : Database) : Outcome :=
  let '(r, w) := handler c {| db := d; log := [] |} in
  {| result := r; statements := log w; after := db w |}.

(** A session of requests, served one after the other; a request that throws
    leaves the store as the handler left it and the next one still runs. *)
Fixpoint serve (cs : list Call) (d : Database) : list (Result unit) * Database :=
  match cs with
  | [] => ([], d)
  | c :: cs' =>
      let o := call c d in
      let '(rs, d') := serve cs' (after o) in
      (result o :: rs, d')
  end.

(** The stores a session goes through, the initial one first. *)
Fixpoint history (cs : list Call) (d : Database) : list Database :=
  match cs with
  | [] => [d]
  | c :: cs' => d :: history cs' (after (call c d))
  end.

(** ** Vocabulary of the statements *)

(** The rows of one direction [(u, f)]. *)
Definition direction (u f : Id) (d : Database) : list Friendship :=
  filter (sameDirection u f) (friendships d).

(** The [id] column is a key, and generated ids are fresh. *)
Record well_formed (d : Database) : Prop := {
  ids_distinct : NoDup (map id (friendships d));
  ids_generated : Forall (fun r => id r < nextId d) (friendships d)
}.

(** The data model's invariant: at most one row per direction. *)
Definition single_direction (d : Database) : Prop :=
  forall u f, (length (direction u f d) <= 1)%nat.

Definition emptyStore (us : list Id) (uniq : bool) : Database :=
  {| users := us; friendships := []; nextId := 1; uniqueDirection := uniq |}.


(** The predicate the three guarded statements share:
    [userId = u and friendUserId = f and status = s]. *)
Definition matching (u f : Id) (s : FriendshipStatus) : Friendship -> bool :=
  whereUserId u &&& whereFriendUserId f &&& whereStatus s.

(** What [updateTable ... set({ status: s }) where p] does to one row. *)
Definition updated (s : FriendshipStatus) (p : Friendship -> bool)
  (r : Friendship) : Friendship :=
  if p r then setStatus s r else r.

(** The row an insert creates in store [d]. *)
Definition inserted (d : Database) (u f : Id) (s : FriendshipStatus)
  : Friendship :=
  {| id := nextId d; userId := u; friendUserId := f; status := s |}.

Definition withInserted (d : Database) (rows : list Friendship)
  (u f : Id) (s : FriendshipStatus) : Database :=
  {| users := users d;
     friendships := rows ++ [inserted d u f s];
     nextId := nextId d + 1;
     uniqueDirection := uniqueDirection d |}.

(** The table after [accept] or [decline], called by [a] for [b], ran its
    guarded update on the request that [b] sent to [a]. *)
Definition answered (a b : Id) (d : Database) (s : FriendshipStatus)
  : list Friendship :=
  map (updated s (matching b a requested)) (friendships d).

(** ** The writes a request can make *)

(** Every request leaves the store in one of six shapes. *)
Inductive effect (d : Database) : Database -> Prop :=
| effect_none : effect d d
| effect_resend (a b : Id) (r : Friendship) :
    find (matching a b declined) (friendships d) = Some r ->
    effect d
      (withFriendships
         (map (updated requested (whereId (id r))) (friendships d)) d)
| effect_request (a b : Id) :
    uniqueDirection d && existsb (sameDirection a b) (friendships d) = false ->
    effect d (withInserted d (friendships d) a b requested)
| effect_decline (a b : Id) :
    effect d (withFriendships (answered a b d declined) d)
| effect_accept_both (a b : Id) (o : Friendship) :
    find (matching a b requested) (answered a b d accepted) = Some o ->
    effect d
      (withFriendships
         (map (updated accepted (whereId (id o))) (answered a b d accepted)) d)
| effect_accept_new (a b : Id) :
    uniqueDirection d
    && existsb (sameDirection a b) (answered a b d accepted) = false ->
    effect d (withInserted d (answered a b d accepted) a b accepted).

(** The moves a row's status can make in one request. *)
Inductive transition : FriendshipStatus -> FriendshipStatus -> Prop :=
| stays (s : FriendshipStatus) : transition s s
| accepting : transition requested accepted
| declining : transition requested declined
| resending : transition declined requested.

(** [d'] still holds every row of [d], under the same id and direction, its
    status moved by one [transition]; an accepted row is the same row. *)
Definition evolves (d d' : Database) : Prop :=
  forall r, In r (friendships d) ->
    exists r', In r' (friendships d')
      /\ id r' = id r /\ userId r' = userId r
      /\ friendUserId r' = friendUserId r
      /\ transition (status r) (status r')
      /\ (status r = accepted -> r' = r).

Inductive chain {A : Type} (R : A -> A -> Prop) : list A -> Prop :=
| chain_nil : chain R []
| chain_one (a : A) : chain R [a]
| chain_cons (a b : A) (l : list A) :
    R a b -> chain R (b :: l) -> chain R (a :: b :: l).

(** ** Lists: selecting and updating rows *)

Section Rows.
Context {A : Type}.
Variables (p q : A -> bool) (f : A -> A).

Lemma find_absent (l : list A) :
  (forall x, In x l -> p x = false) -> find p l = None.
Proof.
  induction l as [|x l IH]; intros H; [reflexivity|].
  simpl. rewrite (H x (or_introl eq_refl)).
  apply IH. intros y Hy. apply H. now right.
Qed.

Lemma find_app (l1 l2 : list A) :
  find p (l1 ++ l2)
  = match find p l1 with Some x => Some x | None => find p l2 end.
Proof.
  induction l1 as [|x l1 IH]; [reflexivity|].
  simpl. now destruct (p x).
Qed.

Lemma filter_absent (l : list A) :
  (forall x, In x l -> p x = false) -> filter p l = [].
Proof.
  induction l as [|x l IH]; intros H; [reflexivity|].
  simpl. rewrite (H x (or_introl eq_refl)).
  apply IH. intros y Hy. apply H. now right.
Qed.

Lemma filter_nil_absent (l : list A) :
  filter p l = [] -> forall x, In x l -> p x = false.
Proof.
  intros H x Hx. destruct (p x) eqn:E; [|reflexivity].
  assert (Hin : In x (filter p l)) by (apply filter_In; now split).
  rewrite H in Hin. destruct Hin.
Qed.

Lemma existsb_absent (l : list A) :
  (forall x, In x l -> p x = false) -> existsb p l = false.
Proof.
  induction l as [|x l IH]; intros H; [reflexivity|].
  simpl. rewrite (H x (or_introl eq_refl)).
  apply IH. intros y Hy. apply H. now right.
Qed.

Lemma existsb_present (l : list A) (x : A) :
  In x l -> p x = true -> existsb p l = true.
Proof.
  intros Hx Hp. apply existsb_exists. now exists x.
Qed.

(** An update whose predicate matches no row leaves the table alone. *)
Lemma map_untouched (l : list A) :
  (forall x, In x l -> p x = false) ->
  map (fun x => if p x then f x else x) l = l.
Proof.
  induction l as [|x l IH]; intros H; [reflexivity|].
  simpl. rewrite (H x (or_introl eq_refl)). f_equal.
  apply IH. intros y Hy. apply H. now right.
Qed.

(** A filter on columns the update does not write commutes with it. *)
Lemma filter_map_stable (l : list A) :
  (forall x, q (f x) = q x) ->
  filter q (map (fun x => if p x then f x else x) l)
  = map (fun x => if p x then f x else x) (filter q l).
Proof.
  intros Hq. induction l as [|x l IH]; [reflexivity|].
  simpl.
  assert (E : q (if p x then f x else x) = q x)
    by (destruct (p x); [apply Hq | reflexivity]).
  rewrite E. destruct (q x); simpl; now rewrite IH.
Qed.

Lemma filter_length_stable (l : list A) :
  (forall x, q (f x) = q x) ->
  length (filter q (map (fun x => if p x then f x else x) l))
  = length (filter q l).
Proof.
  intros Hq. rewrite filter_map_stable by assumption. apply length_map.
Qed.

Lemma filter_present (l : list A) (x : A) :
  In x l -> p x = true -> (0 < length (filter p l))%nat.
Proof.
  intros Hx Hp.
  assert (Hin : In x (filter p l)) by (apply filter_In; now split).
  destruct (filter p l); [destruct Hin | simpl; lia].
Qed.
End Rows.

Lemma find_user (us : list Id) (b : Id) :
  In b us -> find (fun u => u =? b) us = Some b.
Proof.
  induction us as [|u us IH]; intros H; [destruct H|].
  simpl. destruct (Z.eqb_spec u b) as [->|Hne]; [reflexivity|].
  destruct H as [H|H]; [contradiction|]. now apply IH.
Qed.

Lemma find_no_user (us : list Id) (x : Id) :
  ~ In x us -> find (fun u => u =? x) us = None.
Proof.
  intros H. apply find_absent. intros u Hu.
  destruct (Z.eqb_spec u x) as [->|]; [contradiction|reflexivity].
Qed.

(** ** The where-clauses *)

Lemma FriendshipStatus_eqb_eq (a b : FriendshipStatus) :
  FriendshipStatus_eqb a b = true <-> a = b.
Proof. destruct a, b; simpl; split; congruence. Qed.

Lemma matching_spec (u f : Id) (s : FriendshipStatus) (r : Friendship) :
  matching u f s r = true
  <-> userId r = u /\ friendUserId r = f /\ status r = s.
Proof.
  unfold matching, andWhere, whereUserId, whereFriendUserId, whereStatus.
  rewrite !andb_true_iff, !Z.eqb_eq, FriendshipStatus_eqb_eq. tauto.
Qed.

Lemma sameDirection_spec (u f : Id) (r : Friendship) :
  sameDirection u f r = true <-> userId r = u /\ friendUserId r = f.
Proof.
  unfold sameDirection, andWhere, whereUserId, whereFriendUserId.
  rewrite andb_true_iff, !Z.eqb_eq. tauto.
Qed.

Lemma matching_sameDirection (u f : Id) (s : FriendshipStatus) (r : Friendship) :
  matching u f s r = sameDirection u f r && whereStatus s r.
Proof. reflexivity. Qed.

Lemma sameDirection_setStatus (u f : Id) (s : FriendshipStatus) (r : Friendship) :
  sameDirection u f (setStatus s r) = sameDirection u f r.
Proof. reflexivity. Qed.

Lemma not_matching_absent (u f : Id) (s : FriendshipStatus) (rows : list Friendship) :
  (forall r, In r rows -> sameDirection u f r = false) ->
  forall r, In r rows -> matching u f s r = false.
Proof.
  intros H r Hr. rewrite matching_sameDirection, (H r Hr). reflexivity.
Qed.

Lemma direction_absent (u f : Id) (d : Database) :
  direction u f d = [] ->
  forall r, In r (friendships d) -> sameDirection u f r = false.
Proof. apply filter_nil_absent. Qed.

(** ** Running the handlers *)

Ltac run_handler :=
  cbv [call handler send accept decline
       canSendFriendshipRequest canAnswerFriendshipRequest
       send_mutation accept_mutation decline_mutation
       executeTakeFirstOrThrow selectFromUsers selectFromFriendships
       updateFriendships insertIntoFriendships transaction
       bind ret throw issue as_ctx as_input db log session
       Session.userId Input.friendUserId matching];
  cbn [app option_map users friendships nextId uniqueDirection
       withFriendships].

Lemma send_unknown (a x : Id) (d : Database) :
  ~ In x (users d) ->
  call (Send a x) d
  = {| result := Throw (TRPCError BAD_REQUEST);
       statements := [SelectFromUsers None];
       after := d |}.
Proof.
  intros Hx. run_handler. rewrite (find_no_user _ _ Hx). reflexivity.
Qed.

Section Execution.
Variables (a b : Id) (d : Database).

Lemma send_resends (r : Friendship) :
  In b (users d) ->
  find (matching a b declined) (friendships d) = Some r ->
  call (Send a b) d
  = {| result := Ok tt;
       statements :=
         [SelectFromUsers (Some b); SelectFromFriendships (Some (id r));
          UpdateFriendships requested
            (length (filter (whereId (id r)) (friendships d)))];
       after :=
         withFriendships
           (map (updated requested (whereId (id r))) (friendships d)) d |}.
Proof.
  intros Hb Hr. run_handler. rewrite (find_user _ _ Hb).
  run_handler. unfold matching in Hr. rewrite Hr. reflexivity.
Qed.

Lemma send_inserts :
  In b (users d) ->
  find (matching a b declined) (friendships d) = None ->
  uniqueDirection d && existsb (sameDirection a b) (friendships d) = false ->
  call (Send a b) d
  = {| result := Ok tt;
       statements :=
         [SelectFromUsers (Some b); SelectFromFriendships None;
          InsertIntoFriendships a b requested];
       after := withInserted d (friendships d) a b requested |}.
Proof.
  intros Hb Hr Hu. run_handler. rewrite (find_user _ _ Hb).
  run_handler. unfold matching in Hr. rewrite Hr. run_handler. rewrite Hu. reflexivity.
Qed.

Lemma send_rejected :
  In b (users d) ->
  find (matching a b declined) (friendships d) = None ->
  uniqueDirection d && existsb (sameDirection a b) (friendships d) = true ->
  call (Send a b) d
  = {| result := Throw ConstraintViolation;
       statements :=
         [SelectFromUsers (Some b); SelectFromFriendships None;
          InsertIntoFriendships a b requested];
       after := d |}.
Proof.
  intros Hb Hr Hu. run_handler. rewrite (find_user _ _ Hb).
  run_handler. unfold matching in Hr. rewrite Hr. run_handler. rewrite Hu. reflexivity.
Qed.

Lemma accept_not_requested :
  find (matching b a requested) (friendships d) = None ->
  call (Accept a b) d
  = {| result := Throw (TRPCError BAD_REQUEST);
       statements := [SelectFromFriendships None];
       after := d |}.
Proof.
  intros Hr. run_handler. unfold matching in Hr. rewrite Hr. reflexivity.
Qed.

Lemma decline_not_requested :
  find (matching b a requested) (friendships d) = None ->
  call (Decline a b) d
  = {| result := Throw (TRPCError BAD_REQUEST);
       statements := [SelectFromFriendships None];
       after := d |}.
Proof.
  intros Hr. run_handler. unfold matching in Hr. rewrite Hr. reflexivity.
Qed.

Lemma decline_runs (r : Friendship) :
  find (matching b a requested) (friendships d) = Some r ->
  call (Decline a b) d
  = {| result := Ok tt;
       statements :=
         [SelectFromFriendships (Some (id r)); Begin;
          UpdateFriendships declined
            (length (filter (matching b a requested) (friendships d)));
          Commit];
       after := withFriendships (answered a b d declined) d |}.
Proof.
  intros Hr. run_handler. unfold matching in Hr. rewrite Hr. reflexivity.
Qed.

Lemma accept_updates (r : Friendship) (o : Friendship) :
  find (matching b a requested) (friendships d) = Some r ->
  find (matching a b requested) (answered a b d accepted) = Some o ->
  call (Accept a b) d
  = {| result := Ok tt;
       statements :=
         [SelectFromFriendships (Some (id r)); Begin;
          UpdateFriendships accepted
            (length (filter (matching b a requested) (friendships d)));
          SelectFromFriendships (Some (id o));
          UpdateFriendships accepted
            (length (filter (whereId (id o)) (answered a b d accepted)));
          Commit];
       after :=
         withFriendships
           (map (updated accepted (whereId (id o))) (answered a b d accepted)) d |}.
Proof.
  intros Hr Ho. run_handler. unfold matching in Hr. rewrite Hr.
  run_handler. unfold answered, updated, matching in Ho.
  rewrite Ho. reflexivity.
Qed.

Lemma accept_inserts (r : Friendship) :
  find (matching b a requested) (friendships d) = Some r ->
  find (matching a b requested) (answered a b d accepted) = None ->
  uniqueDirection d && existsb (sameDirection a b) (answered a b d accepted) = false ->
  call (Accept a b) d
  = {| result := Ok tt;
       statements :=
         [SelectFromFriendships (Some (id r)); Begin;
          UpdateFriendships accepted
            (length (filter (matching b a requested) (friendships d)));
          SelectFromFriendships None;
          InsertIntoFriendships a b accepted;
          Commit];
       after := withInserted d (answered a b d accepted) a b accepted |}.
Proof.
  intros Hr Ho Hu. run_handler. unfold matching in Hr. rewrite Hr.
  run_handler. unfold answered, updated, matching in Ho, Hu.
  rewrite Ho. run_handler. rewrite Hu. reflexivity.
Qed.

Lemma accept_rejected (r : Friendship) :
  find (matching b a requested) (friendships d) = Some r ->
  find (matching a b requested) (answered a b d accepted) = None ->
  uniqueDirection d && existsb (sameDirection a b) (answered a b d accepted) = true ->
  call (Accept a b) d
  = {| result := Throw ConstraintViolation;
       statements :=
         [SelectFromFriendships (Some (id r)); Begin;
          UpdateFriendships accepted
            (length (filter (matching b a requested) (friendships d)));
          SelectFromFriendships None;
          InsertIntoFriendships a b accepted;
          Rollback];
       after := d |}.
Proof.
  intros Hr Ho Hu. run_handler. unfold matching in Hr. rewrite Hr.
  run_handler. unfold answered, updated, matching in Ho, Hu.
  rewrite Ho. run_handler. rewrite Hu. reflexivity.
Qed.

End Execution.

(** ** Every request has one of the six effects *)

Lemma call_effect (c : Call) (d : Database) : effect d (after (call c d)).
Proof.
  destruct c as [a b|a b|a b].
  - destruct (in_dec Z.eq_dec b (users d)) as [Hb|Hb].
    2: { rewrite send_unknown by assumption. constructor. }
    destruct (find (matching a b declined) (friendships d)) as [r|] eqn:Hr.
    { rewrite (send_resends a b d r) by assumption. now apply effect_resend with a b. }
    destruct (uniqueDirection d && existsb (sameDirection a b) (friendships d))
      eqn:Hu.
    + rewrite send_rejected by assumption. constructor.
    + rewrite send_inserts by assumption. now apply effect_request.
  - destruct (find (matching b a requested) (friendships d)) as [r|] eqn:Hr.
    2: { rewrite accept_not_requested by assumption. constructor. }
    destruct (find (matching a b requested) (answered a b d accepted))
      as [o|] eqn:Ho.
    { rewrite (accept_updates a b d r o) by assumption.
      now apply effect_accept_both. }
    destruct (uniqueDirection d
              && existsb (sameDirection a b) (answered a b d accepted)) eqn:Hu.
    + rewrite (accept_rejected a b d r) by assumption. constructor.
    + rewrite (accept_inserts a b d r) by assumption.
      now apply effect_accept_new.
  - destruct (find (matching b a requested) (friendships d)) as [r|] eqn:Hr.
    2: { rewrite decline_not_requested by assumption. constructor. }
    rewrite (decline_runs a b d r) by assumption. apply effect_decline.
Qed.

(** ** The id column is a key *)

Lemma id_updated (s : FriendshipStatus) (p : Friendship -> bool) (r : Friendship) :
  id (updated s p r) = id r.
Proof. unfold updated. now destruct (p r). Qed.

Lemma ids_updated (s : FriendshipStatus) (p : Friendship -> bool)
  (rows : list Friendship) :
  map id (map (updated s p) rows) = map id rows.
Proof.
  rewrite map_map. apply map_ext. intros r. apply id_updated.
Qed.

Lemma id_key (rows : list Friendship) (r o : Friendship) :
  NoDup (map id rows) -> In r rows -> In o rows -> id r = id o -> r = o.
Proof.
  induction rows as [|x rows IH]; intros Hnd Hr Ho E; [destruct Hr|].
  simpl in Hnd. inversion Hnd as [|? ? Hx Hnd']; subst.
  destruct Hr as [->|Hr], Ho as [->|Ho].
  - reflexivity.
  - exfalso. apply Hx. rewrite E. now apply in_map.
  - exfalso. apply Hx. rewrite <- E. now apply in_map.
  - now apply IH.
Qed.

Lemma well_formed_updated (s : FriendshipStatus) (p : Friendship -> bool)
  (rows : list Friendship) (d : Database) :
  NoDup (map id rows) -> Forall (fun r => id r < nextId d) rows ->
  well_formed (withFriendships (map (updated s p) rows) d).
Proof.
  intros Hnd Hlt. split; simpl.
  - now rewrite ids_updated.
  - apply Forall_map. eapply Forall_impl; [|exact Hlt].
    intros r Hr. simpl. now rewrite id_updated.
Qed.

Lemma well_formed_inserted (rows : list Friendship) (d : Database)
  (u f : Id) (s : FriendshipStatus) :
  NoDup (map id rows) -> Forall (fun r => id r < nextId d) rows ->
  well_formed (withInserted d rows u f s).
Proof.
  intros Hnd Hlt. split; simpl.
  - rewrite map_app. simpl. apply NoDup_app; [assumption| |].
    + constructor; [intros []|constructor].
    + intros i Hi [<-|[]]. apply in_map_iff in Hi as (r & E & Hr).
      rewrite Forall_forall in Hlt. specialize (Hlt r Hr). simpl in E. lia.
  - apply Forall_app. split.
    + eapply Forall_impl; [|exact Hlt]. intros r Hr. simpl in *. lia.
    + constructor; [simpl; lia|constructor].
Qed.

Lemma effect_well_formed (d d' : Database) :
  effect d d' -> well_formed d -> well_formed d'.
Proof.
  intros He [Hnd Hlt]. destruct He.
  - now split.
  - now apply well_formed_updated.
  - now apply well_formed_inserted.
  - now apply well_formed_updated.
  - apply well_formed_updated.
    + unfold answered. now rewrite ids_updated.
    + unfold answered. apply Forall_map. eapply Forall_impl; [|exact Hlt].
      intros r Hr. simpl. now rewrite id_updated.
  - apply well_formed_inserted.
    + unfold answered. now rewrite ids_updated.
    + unfold answered. apply Forall_map. eapply Forall_impl; [|exact Hlt].
      intros r Hr. simpl. now rewrite id_updated.
Qed.

Lemma call_well_formed (c : Call) (d : Database) :
  well_formed d -> well_formed (after (call c d)).
Proof. apply effect_well_formed, call_effect. Qed.

Lemma emptyStore_well_formed (us : list Id) (uniq : bool) :
  well_formed (emptyStore us uniq).
Proof. split; simpl; constructor. Qed.

(** ** Status transitions *)

(** A table rewritten row by row, then possibly extended, [evolves] when the
    rewriting keeps the key and the direction and moves each status by one
    [transition]. *)
Lemma evolves_map (d d' : Database) (g : Friendship -> Friendship)
  (extra : list Friendship) :
  friendships d' = map g (friendships d) ++ extra ->
  (forall r, In r (friendships d) ->
     id (g r) = id r /\ userId (g r) = userId r
     /\ friendUserId (g r) = friendUserId r
     /\ transition (status r) (status (g r))
     /\ (status r = accepted -> g r = r)) ->
  evolves d d'.
Proof.
  intros E Hg r Hr. exists (g r). split; [|now apply Hg].
  rewrite E. apply in_or_app. left. now apply in_map.
Qed.

Lemma updated_row (s : FriendshipStatus) (p : Friendship -> bool)
  (r : Friendship) :
  (p r = true -> transition (status r) s /\ status r <> accepted) ->
  id (updated s p r) = id r /\ userId (updated s p r) = userId r
  /\ friendUserId (updated s p r) = friendUserId r
  /\ transition (status r) (status (updated s p r))
  /\ (status r = accepted -> updated s p r = r).
Proof.
  intros H. unfold updated. destruct (p r); simpl.
  - destruct (H eq_refl) as [Ht Hn]. repeat split; try assumption.
    intros Ha. contradiction.
  - repeat split; try constructor.
Qed.

Lemma matching_requested_moves (u f : Id) (s : FriendshipStatus) (r : Friendship) :
  transition requested s ->
  matching u f requested r = true ->
  transition (status r) s /\ status r <> accepted.
Proof.
  intros Ht Hm. apply matching_spec in Hm as (_ & _ & ->).
  split; [assumption|discriminate].
Qed.

Lemma whereId_row (rows : list Friendship) (o r : Friendship) :
  NoDup (map id rows) -> In o rows -> In r rows ->
  whereId (id o) r = true -> r = o.
Proof.
  intros Hnd Ho Hr E. unfold whereId in E. apply Z.eqb_eq in E.
  now apply id_key with rows.
Qed.

Lemma effect_evolves (d d' : Database) :
  effect d d' -> well_formed d -> evolves d d'.
Proof.
  intros He [Hnd Hlt]. destruct He as [|a b o Ho|a b _|a b|a b o Ho|a b _].
  - apply evolves_map with (g := fun r => r) (extra := []).
    + now rewrite map_id, app_nil_r.
    + intros r _. repeat split; constructor.
  - apply evolves_map with (g := updated requested (whereId (id o)))
                           (extra := []).
    + simpl. now rewrite app_nil_r.
    + intros r Hr. apply updated_row. intros E.
      apply find_some in Ho as [Ho Hm].
      apply (whereId_row _ _ _ Hnd Ho Hr) in E. subst r.
      apply matching_spec in Hm as (_ & _ & ->).
      split; [constructor|discriminate].
  - apply evolves_map with (g := fun r => r)
                           (extra := [inserted d a b requested]).
    + simpl. now rewrite map_id.
    + intros r _. repeat split; constructor.
  - apply evolves_map with (g := updated declined (matching b a requested))
                           (extra := []).
    + simpl. now rewrite app_nil_r.
    + intros r _. apply updated_row.
      apply matching_requested_moves. constructor.
  - apply evolves_map
      with (g := fun r => updated accepted (whereId (id o))
                            (updated accepted (matching b a requested) r))
           (extra := []).
    + simpl. unfold answered. now rewrite map_map, app_nil_r.
    + intros r Hr.
      apply find_some in Ho as [Ho Hm].
      apply matching_spec in Hm as (Hou & Hof & Hos).
      unfold answered in Ho. apply in_map_iff in Ho as (o0 & Eo & Ho0).
      assert (Eid : id o = id o0) by (rewrite <- Eo; apply id_updated).
      destruct (matching b a requested r) eqn:Hm.
      * (* the inbound request itself: accepted by the first update *)
        assert (E1 : updated accepted (matching b a requested) r
                     = setStatus accepted r)
          by (unfold updated; now rewrite Hm).
        rewrite E1.
        assert (E2 : whereId (id o) (setStatus accepted r) = false).
        { destruct (whereId (id o) (setStatus accepted r)) eqn:E; [|reflexivity].
          exfalso. unfold whereId in E. simpl in E. apply Z.eqb_eq in E.
          assert (r = o0) by (apply id_key with (friendships d); congruence).
          subst o0. rewrite <- Eo, E1 in Hos. discriminate. }
        unfold updated at 1 2 3 4 5. rewrite E2.
        apply matching_spec in Hm as (_ & _ & Hs). simpl. rewrite Hs.
        repeat split; try constructor. discriminate.
      * assert (E1 : updated accepted (matching b a requested) r = r)
          by (unfold updated; now rewrite Hm).
        rewrite E1. apply updated_row. intros E.
        unfold whereId in E. apply Z.eqb_eq in E.
        assert (r = o0) by (apply id_key with (friendships d); congruence).
        subst o0. rewrite <- Eo, E1 in Hos.
        rewrite Hos. split; [constructor|discriminate].
  - apply evolves_map with (g := updated accepted (matching b a requested))
                           (extra := [inserted d a b accepted]).
    + reflexivity.
    + intros r _. apply updated_row.
      apply matching_requested_moves. constructor.
Qed.

Lemma history_head (cs : list Call) (d : Database) :
  exists l, history cs d = d :: l.
Proof. destruct cs; simpl; eauto. Qed.

Lemma no_requested_row (u f : Id) (s : FriendshipStatus) (rows : list Friendship) :
  (forall r, In r rows ->
     ~ (userId r = u /\ friendUserId r = f /\ status r = s)) ->
  find (matching u f s) rows = None.
Proof.
  intros H. apply find_absent. intros r Hr.
  destruct (matching u f s r) eqn:E; [|reflexivity].
  apply matching_spec in E. now apply H in E.
Qed.

(** ** Statements on a table with an untouched prefix *)

Section Prefix.
Variables (p : Friendship -> bool) (rows tail : list Friendship).
Hypothesis absent : forall r, In r rows -> p r = false.

Lemma find_prefix : find p (rows ++ tail) = find p tail.
Proof. now rewrite find_app, find_absent. Qed.

Lemma filter_prefix : filter p (rows ++ tail) = filter p tail.
Proof. now rewrite filter_app, filter_absent. Qed.

Lemma existsb_prefix : existsb p (rows ++ tail) = existsb p tail.
Proof. now rewrite existsb_app, existsb_absent. Qed.

Lemma updated_prefix (s : FriendshipStatus) :
  map (updated s p) (rows ++ tail) = rows ++ map (updated s p) tail.
Proof.
  rewrite map_app. f_equal. now apply map_untouched.
Qed.
End Prefix.

Lemma updated_hit (s : FriendshipStatus) (p : Friendship -> bool) (r : Friendship) :
  p r = true -> updated s p r = setStatus s r.
Proof. intros H. unfold updated. now rewrite H. Qed.

Lemma updated_miss (s : FriendshipStatus) (p : Friendship -> bool) (r : Friendship) :
  p r = false -> updated s p r = r.
Proof. intros H. unfold updated. now rewrite H. Qed.

Lemma matching_inserted (d : Database) (u f : Id) (s : FriendshipStatus) :
  matching u f s (inserted d u f s) = true.
Proof. apply matching_spec. repeat split. Qed.

Lemma sameDirection_inserted (d : Database) (u f : Id) (s : FriendshipStatus) :
  sameDirection u f (inserted d u f s) = true.
Proof. apply sameDirection_spec. split; reflexivity. Qed.

Lemma sameDirection_reverse (u f : Id) (r : Friendship) :
  u <> f -> sameDirection u f r = true -> sameDirection f u r = false.
Proof.
  intros Hne H. apply sameDirection_spec in H as [Hu Hf].
  destruct (sameDirection f u r) eqn:E; [|reflexivity].
  apply sameDirection_spec in E as [Hu' _]. congruence.
Qed.

Lemma whereId_fresh (d : Database) (rows : list Friendship) :
  Forall (fun r => id r < nextId d) rows ->
  forall r, In r rows -> whereId (nextId d) r = false.
Proof.
  intros H r Hr. rewrite Forall_forall in H. specialize (H r Hr).
  unfold whereId. apply Z.eqb_neq. simpl in H. lia.
Qed.

Lemma find_present (p : Friendship -> bool) (rows : list Friendship)
  (r : Friendship) :
  In r rows -> p r = true ->
  exists o, find p rows = Some o /\ In o rows /\ p o = true.
Proof.
  intros Hr Hp. destruct (find p rows) as [o|] eqn:E.
  - exists o. apply find_some in E as [Ho Hpo]. now repeat split.
  - apply find_none with (x := r) in E; [congruence|assumption].
Qed.

(** ** Updates and directions *)

Lemma sameDirection_updated (u f : Id) (s : FriendshipStatus)
  (p : Friendship -> bool) (r : Friendship) :
  sameDirection u f (updated s p r) = sameDirection u f r.
Proof. unfold updated. now destruct (p r). Qed.

Lemma direction_updated (u f : Id) (s : FriendshipStatus)
  (p : Friendship -> bool) (rows : list Friendship) :
  filter (sameDirection u f) (map (updated s p) rows)
  = map (updated s p) (filter (sameDirection u f) rows).
Proof.
  apply (filter_map_stable p (sameDirection u f) (setStatus s)).
  intros x. apply sameDirection_setStatus.
Qed.

Lemma matching_in_direction (u f : Id) (s : FriendshipStatus) (d : Database)
  (x : Friendship) :
  In x (friendships d) -> matching u f s x = true -> In x (direction u f d).
Proof.
  intros Hx Hm. apply filter_In. split; [assumption|].
  rewrite matching_sameDirection in Hm. now apply andb_true_iff in Hm.
Qed.

Lemma filter_matching (u f : Id) (s : FriendshipStatus) (rows : list Friendship) :
  filter (matching u f s) rows
  = filter (whereStatus s) (filter (sameDirection u f) rows).
Proof.
  induction rows as [|x rows IH]; [reflexivity|].
  simpl. rewrite matching_sameDirection.
  destruct (sameDirection u f x); simpl.
  - destruct (whereStatus s x); now rewrite IH.
  - exact IH.
Qed.

Lemma direction_sole (u f : Id) (d : Database) (r x : Friendship) :
  direction u f d = [r] -> In x (friendships d) ->
  sameDirection u f x = true -> x = r.
Proof.
  intros Hd Hx Hs.
  assert (Hin : In x (direction u f d)) by (apply filter_In; now split).
  rewrite Hd in Hin. destruct Hin as [<-|[]]. reflexivity.
Qed.

Lemma direction_sole_in (u f : Id) (d : Database) (r : Friendship) :
  direction u f d = [r] ->
  In r (friendships d) /\ sameDirection u f r = true.
Proof.
  intros Hd. apply filter_In. fold (direction u f d). rewrite Hd. now left.
Qed.

Lemma whereStatus_spec (s : FriendshipStatus) (r : Friendship) :
  whereStatus s r = true <-> status r = s.
Proof. apply FriendshipStatus_eqb_eq. Qed.

(** The guard's select, when the direction has a single row and that row is
    [requested]. *)
Lemma find_sole_requested (u f : Id) (d : Database) (r : Friendship) :
  direction u f d = [r] -> status r = requested ->
  find (matching u f requested) (friendships d) = Some r
  /\ length (filter (matching u f requested) (friendships d)) = 1%nat.
Proof.
  intros Hd Hs. destruct (direction_sole_in _ _ _ _ Hd) as [Hr Hsd].
  assert (Hm : matching u f requested r = true).
  { rewrite matching_sameDirection, Hsd. now apply whereStatus_spec. }
  split.
  - destruct (find_present _ _ _ Hr Hm) as (o & Ho & Hin & Hmo).
    rewrite Ho. f_equal. apply (direction_sole u f d r o Hd Hin).
    rewrite matching_sameDirection in Hmo. now apply andb_true_iff in Hmo.
  - rewrite filter_matching. fold (direction u f d). rewrite Hd. simpl.
    apply whereStatus_spec in Hs. now rewrite Hs.
Qed.

Lemma direction_distinct (u f : Id) (d : Database) (r : Friendship) (l : list Friendship) :
  direction u f d = r :: l -> direction f u d <> direction u f d -> u <> f.
Proof. intros _ Hne ->. now apply Hne. Qed.

(** ** One row per direction *)

Lemma direction_withInserted (u f a b : Id) (s : FriendshipStatus)
  (d : Database) (rows : list Friendship) :
  direction u f (withInserted d rows a b s)
  = filter (sameDirection u f) rows
    ++ (if sameDirection u f (inserted d a b s)
        then [inserted d a b s] else []).
Proof.
  unfold direction. cbn [friendships withInserted].
  rewrite filter_app. reflexivity.
Qed.

Lemma sameDirection_eq (u f a b : Id) (x y : Friendship) :
  sameDirection u f x = true -> sameDirection a b x = false ->
  sameDirection u f y = true -> sameDirection a b y = false.
Proof.
  intros Hx Hab Hy. apply sameDirection_spec in Hx as [<- <-].
  apply sameDirection_spec in Hy as [Hu Hf].
  unfold sameDirection, andWhere, whereUserId, whereFriendUserId in *.
  now rewrite Hu, Hf.
Qed.

(** A table that rejects a second row per direction keeps the invariant
    under every request. *)
Lemma effect_single_direction (d d' : Database) :
  effect d d' -> uniqueDirection d = true ->
  single_direction d -> single_direction d'.
Proof.
  intros He Hu Hinv u f. specialize (Hinv u f).
  assert (Hins : forall rows a b s,
            (length (filter (sameDirection u f) rows) <= 1)%nat ->
            existsb (sameDirection a b) rows = false ->
            (length (direction u f (withInserted d rows a b s)) <= 1)%nat).
  { intros rows a b s Hlen Hex. rewrite direction_withInserted.
    destruct (sameDirection u f (inserted d a b s)) eqn:E.
    - rewrite filter_absent; [simpl; lia|].
      intros x Hx. destruct (sameDirection u f x) eqn:Ex; [|reflexivity].
      assert (Hxab : sameDirection a b x = false).
      { destruct (sameDirection a b x) eqn:Exab; [|reflexivity].
        rewrite <- Hex. symmetry. now apply existsb_present with x. }
      pose proof (sameDirection_eq u f a b x (inserted d a b s) Ex Hxab E)
        as Hcontra.
      now rewrite sameDirection_inserted in Hcontra.
    - now rewrite app_nil_r. }
  destruct He as [|a b o Ho|a b Hex|a b|a b o Ho|a b Hex].
  - exact Hinv.
  - unfold direction. cbn [friendships withFriendships].
    now rewrite direction_updated, length_map.
  - rewrite Hu in Hex. now apply Hins.
  - unfold direction, answered. cbn [friendships withFriendships].
    now rewrite direction_updated, length_map.
  - unfold direction, answered. cbn [friendships withFriendships].
    now rewrite !direction_updated, !length_map.
  - rewrite Hu in Hex. apply Hins; [|exact Hex].
    unfold answered. now rewrite direction_updated, length_map.
Qed.

Lemma effect_uniqueDirection (d d' : Database) :
  effect d d' -> uniqueDirection d' = uniqueDirection d.
Proof. intros He. now destruct He. Qed.

Lemma serve_single_direction (cs : list Call) (d : Database) :
  uniqueDirection d = true -> single_direction d ->
  single_direction (snd (serve cs d)).
Proof.
  revert d. induction cs as [|c cs IH]; intros d Hu Hinv; [exact Hinv|].
  simpl. specialize (IH (after (call c d))).
  destruct (serve cs (after (call c d))) as [rs d'']. simpl in *.
  apply IH.
  - now rewrite (effect_uniqueDirection _ _ (call_effect c d)).
  - exact (effect_single_direction _ _ (call_effect c d) Hu Hinv).
Qed.

(** Evaluating where-clauses on explicit rows, given the comparisons of the
    identifiers involved. *)
Ltac eval_rows :=
  repeat (cbv beta iota zeta delta
            [updated matching sameDirection andWhere whereId whereUserId
             whereFriendUserId whereStatus setStatus inserted withInserted
             withFriendships];
          cbn [find filter map existsb length app option_map andb
               FriendshipStatus_eqb id userId friendUserId status
               users friendships nextId uniqueDirection];
          rewrite ?Z.eqb_refl, ?andb_false_r, ?andb_true_r;
          repeat match goal with
                 | H : (_ =? _) = false |- _ => rewrite !H
                 end).

(** ** Properties of the router *)

(** C6.  A request sent to an identifier that is not in the [users] table is
    refused by [canSendFriendshipRequest] with [TRPCError BAD_REQUEST] (the
    invalid-target error): the only statement run is the lookup in [users],
    and the store is the one the request found, so no friendship row was
    created or modified. *)
Theorem send_invalid_target (A X : Id) (d : Database) :
  ~ In X (users d) ->
  let o := call (Send A X) d in
  result o = Throw (TRPCError BAD_REQUEST)
  /\ statements o = [SelectFromUsers None]
  /\ after o = d.
Proof.
  intros HX o. subst o. rewrite send_unknown by assumption.
  repeat split.
Qed.

Lemma send_invalid_target_witness :
  ~ In 7 (users (emptyStore [1; 2] true))
  /\ after (call (Send 1 7) (emptyStore [1; 2] true))
     = emptyStore [1; 2] true.
Proof.
  assert (H : ~ In 7 (users (emptyStore [1; 2] true)))
    by (simpl; intros [H|[H|[]]]; discriminate H).
  split; [exact H|].
  apply (send_invalid_target 1 7 (emptyStore [1; 2] true) H).
Defined.

(** C5.  When the store has no row [(A, B)] with status [requested], both
    [accept] and [decline] called by [B] for [A] are refused by
    [canAnswerFriendshipRequest] with [TRPCError BAD_REQUEST] (the
    not-requested error); only the guard's select ran, so the mutation body
    (its transaction, update and insert) never executed, and the store is
    unchanged. *)
Theorem answer_not_requested (A B : Id) (d : Database) :
  (forall r, In r (friendships d) ->
     ~ (userId r = A /\ friendUserId r = B /\ status r = requested)) ->
  call (Accept B A) d
  = {| result := Throw (TRPCError BAD_REQUEST);
       statements := [SelectFromFriendships None];
       after := d |}
  /\ call (Decline B A) d
     = {| result := Throw (TRPCError BAD_REQUEST);
          statements := [SelectFromFriendships None];
          after := d |}.
Proof.
  intros H. apply no_requested_row in H. split.
  - now apply accept_not_requested.
  - now apply decline_not_requested.
Qed.

Lemma answer_not_requested_witness :
  result (call (Accept 2 1) (emptyStore [1; 2] true))
  = Throw (TRPCError BAD_REQUEST).
Proof.
  assert (H : forall r, In r (friendships (emptyStore [1; 2] true)) ->
                ~ (userId r = 1 /\ friendUserId r = 2 /\ status r = requested))
    by (intros r []).
  exact (f_equal result
           (proj1 (answer_not_requested 1 2 (emptyStore [1; 2] true) H))).
Defined.

(** C8.  Along every session of [send], [accept] and [decline] requests,
    started in a store whose ids are distinct, each store [evolves] into the
    next: every row is still there under the same id and direction, and its
    status either stayed or moved along requested -> accepted,
    requested -> declined or declined -> requested (the only move backwards);
    a row whose status is [accepted] is never changed. *)
Theorem status_transitions_monotone (cs : list Call) (d : Database) :
  well_formed d -> chain evolves (history cs d).
Proof.
  revert d. induction cs as [|c cs IH]; intros d Hwf; simpl.
  - constructor.
  - destruct (history_head cs (after (call c d))) as [l El].
    specialize (IH _ (call_well_formed c d Hwf)).
    rewrite El in *. constructor; [|exact IH].
    apply effect_evolves; [apply call_effect|exact Hwf].
Qed.

Lemma status_transitions_monotone_witness :
  well_formed (emptyStore [1; 2] false)
  /\ chain evolves
       (history [Send 1 2; Decline 2 1; Send 1 2; Send 2 1; Accept 2 1]
          (emptyStore [1; 2] false)).
Proof.
  assert (H : well_formed (emptyStore [1; 2] false))
    by (split; simpl; constructor).
  split; [exact H|].
  exact (status_transitions_monotone
           [Send 1 2; Decline 2 1; Send 1 2; Send 2 1; Accept 2 1]
           (emptyStore [1; 2] false) H).
Defined.

(** C1.  In a store with distinct ids where [B] is a known user and the
    direction [(A, B)] has no row yet, [A] sends to [B], [B] declines and [A]
    sends again: the three requests succeed, and the direction [(A, B)] holds
    exactly one row, the one created by the first send, with status
    [requested].  The second send found the declined row and updated it (one
    row) instead of inserting, so the table has one row more than at the
    start. *)
Theorem resend_after_decline (A B : Id) (d : Database) :
  well_formed d -> In B (users d) -> direction A B d = [] ->
  let o1 := call (Send A B) d in
  let o2 := call (Decline B A) (after o1) in
  let o3 := call (Send A B) (after o2) in
  result o1 = Ok tt /\ result o2 = Ok tt /\ result o3 = Ok tt
  /\ statements o3
     = [SelectFromUsers (Some B); SelectFromFriendships (Some (nextId d));
        UpdateFriendships requested 1]
  /\ friendships (after o3) = friendships d ++ [inserted d A B requested]
  /\ direction A B (after o3) = [inserted d A B requested].
Proof.
  intros [Hnd Hlt] HB Hdir.
  pose proof (direction_absent _ _ _ Hdir) as Habs.
  pose proof (fun s => not_matching_absent A B s _ Habs) as Hnone.
  (* first send: nothing to re-send, the insert goes through *)
  assert (E1 : call (Send A B) d
               = {| result := Ok tt;
                    statements :=
                      [SelectFromUsers (Some B); SelectFromFriendships None;
                       InsertIntoFriendships A B requested];
                    after := withInserted d (friendships d) A B requested |}).
  { apply send_inserts; [assumption| |].
    - apply find_absent, Hnone.
    - rewrite existsb_absent by assumption. apply andb_false_r. }
  cbv zeta. rewrite E1. cbn [result after].
  set (d1 := withInserted d (friendships d) A B requested).
  (* decline: the guard finds the new row, the update declines it *)
  assert (E2 : call (Decline B A) d1
               = {| result := Ok tt;
                    statements :=
                      [SelectFromFriendships (Some (nextId d)); Begin;
                       UpdateFriendships declined 1; Commit];
                    after :=
                      withFriendships
                        (friendships d ++ [inserted d A B declined]) d1 |}).
  { rewrite (decline_runs B A d1 (inserted d A B requested)).
    - unfold answered. cbn [d1 withInserted friendships].
      rewrite filter_prefix, updated_prefix by apply Hnone.
      cbn [filter map]. rewrite updated_hit by apply matching_inserted.
      rewrite matching_inserted. reflexivity.
    - cbn [d1 withInserted friendships].
      rewrite find_prefix by apply Hnone.
      cbn [find]. now rewrite matching_inserted. }
  rewrite E2. cbn [result after].
  set (d2 := withFriendships (friendships d ++ [inserted d A B declined]) d1).
  (* second send: the declined row is found and set back to requested *)
  assert (E3 : call (Send A B) d2
               = {| result := Ok tt;
                    statements :=
                      [SelectFromUsers (Some B);
                       SelectFromFriendships (Some (nextId d));
                       UpdateFriendships requested 1];
                    after :=
                      withFriendships
                        (friendships d ++ [inserted d A B requested]) d2 |}).
  { rewrite (send_resends A B d2 (inserted d A B declined)).
    - cbn [d2 withFriendships friendships inserted id].
      rewrite filter_prefix, updated_prefix by now apply whereId_fresh.
      cbn [filter map]. unfold updated, whereId. cbn [id].
      rewrite Z.eqb_refl. reflexivity.
    - exact HB.
    - cbn [d2 withFriendships friendships].
      rewrite find_prefix by apply Hnone.
      cbn [find]. now rewrite matching_inserted. }
  rewrite E3. cbn [result statements after withFriendships friendships].
  repeat split.
  unfold direction. cbn [friendships withFriendships].
  rewrite filter_prefix by assumption.
  cbn [filter]. now rewrite sameDirection_inserted.
Qed.

Lemma resend_after_decline_witness :
  direction 1 2
    (after (call (Send 1 2)
       (after (call (Decline 2 1)
          (after (call (Send 1 2) (emptyStore [1; 2] true)))))))
  = [inserted (emptyStore [1; 2] true) 1 2 requested].
Proof.
  assert (Hwf : well_formed (emptyStore [1; 2] true))
    by (split; simpl; constructor).
  assert (HB : In 2 (users (emptyStore [1; 2] true)))
    by (simpl; right; left; reflexivity).
  exact (proj2 (proj2 (proj2 (proj2 (proj2
           (resend_after_decline 1 2 (emptyStore [1; 2] true)
              Hwf HB eq_refl)))))).
Defined.

(** C2.  With [A] and [B] distinct known users and no row in either direction,
    [A] sends to [B], [B] sends to [A] and [B] accepts [A]'s request: the three
    requests succeed and the store holds exactly the two rows created by the
    sends, one per direction, both [accepted].  The accept found [B]'s own
    request and updated it by id: it issued no insert. *)
Theorem cross_requests_accept (A B : Id) (d : Database) :
  A <> B -> well_formed d -> In A (users d) -> In B (users d) ->
  direction A B d = [] -> direction B A d = [] ->
  let o1 := call (Send A B) d in
  let o2 := call (Send B A) (after o1) in
  let o3 := call (Accept B A) (after o2) in
  result o1 = Ok tt /\ result o2 = Ok tt /\ result o3 = Ok tt
  /\ statements o3
     = [SelectFromFriendships (Some (nextId d)); Begin;
        UpdateFriendships accepted 1;
        SelectFromFriendships (Some (nextId d + 1));
        UpdateFriendships accepted 1; Commit]
  /\ friendships (after o3)
     = friendships d
       ++ [mkFriendship (nextId d) A B accepted;
           mkFriendship (nextId d + 1) B A accepted]
  /\ direction A B (after o3) = [mkFriendship (nextId d) A B accepted]
  /\ direction B A (after o3) = [mkFriendship (nextId d + 1) B A accepted].
Proof.
  intros Hne [Hnd Hlt] HA HB HdAB HdBA.
  pose proof (direction_absent _ _ _ HdAB) as HabsAB.
  pose proof (direction_absent _ _ _ HdBA) as HabsBA.
  pose proof (fun s => not_matching_absent A B s _ HabsAB) as HnoneAB.
  pose proof (fun s => not_matching_absent B A s _ HabsBA) as HnoneBA.
  pose proof (whereId_fresh d _ Hlt) as Hfresh.
  assert (Hfresh' : forall r, In r (friendships d) ->
                      whereId (nextId d + 1) r = false).
  { intros r Hr. rewrite Forall_forall in Hlt. specialize (Hlt r Hr).
    unfold whereId. apply Z.eqb_neq. simpl in Hlt. lia. }
  assert (HAB : (A =? B) = false) by now apply Z.eqb_neq.
  assert (HBA : (B =? A) = false) by (apply Z.eqb_neq; congruence).
  assert (Hn : (nextId d =? nextId d + 1) = false) by (apply Z.eqb_neq; lia).
  (* A's request is inserted *)
  assert (E1 : call (Send A B) d
               = {| result := Ok tt;
                    statements :=
                      [SelectFromUsers (Some B); SelectFromFriendships None;
                       InsertIntoFriendships A B requested];
                    after := withInserted d (friendships d) A B requested |}).
  { apply send_inserts; [assumption| |].
    - apply find_absent, HnoneAB.
    - rewrite existsb_absent by assumption. apply andb_false_r. }
  cbv zeta. rewrite E1. cbn [result after].
  set (d1 := withInserted d (friendships d) A B requested).
  (* B's request is inserted next to it *)
  assert (E2 : call (Send B A) d1
               = {| result := Ok tt;
                    statements :=
                      [SelectFromUsers (Some A); SelectFromFriendships None;
                       InsertIntoFriendships B A requested];
                    after := withInserted d1 (friendships d1) B A requested |}).
  { apply send_inserts.
    - exact HA.
    - cbn [d1 withInserted friendships].
      rewrite find_prefix by apply HnoneBA. eval_rows. reflexivity.
    - cbn [d1 withInserted friendships].
      rewrite existsb_prefix by assumption. eval_rows. reflexivity. }
  rewrite E2. cbn [result after].
  set (d2 := withInserted d1 (friendships d1) B A requested).
  assert (F2 : friendships d2
               = friendships d
                 ++ [mkFriendship (nextId d) A B requested;
                     mkFriendship (nextId d + 1) B A requested]).
  { cbn [d2 d1 withInserted friendships inserted nextId].
    now rewrite <- app_assoc. }
  (* B accepts: both rows are updated in place *)
  assert (F3 : answered B A d2 accepted
               = friendships d
                 ++ [mkFriendship (nextId d) A B accepted;
                     mkFriendship (nextId d + 1) B A requested]).
  { unfold answered. rewrite F2.
    rewrite updated_prefix by apply HnoneAB. eval_rows. reflexivity. }
  assert (E3 : call (Accept B A) d2
               = {| result := Ok tt;
                    statements :=
                      [SelectFromFriendships (Some (nextId d)); Begin;
                       UpdateFriendships accepted 1;
                       SelectFromFriendships (Some (nextId d + 1));
                       UpdateFriendships accepted 1; Commit];
                    after :=
                      withFriendships
                        (friendships d
                         ++ [mkFriendship (nextId d) A B accepted;
                             mkFriendship (nextId d + 1) B A accepted]) d2 |}).
  { rewrite (accept_updates B A d2
               (mkFriendship (nextId d) A B requested)
               (mkFriendship (nextId d + 1) B A requested)).
    - rewrite F3, F2. cbn [id].
      rewrite (filter_prefix _ _ _ (HnoneAB requested)).
      rewrite (filter_prefix _ _ _ Hfresh').
      rewrite (updated_prefix _ _ _ Hfresh').
      eval_rows. reflexivity.
    - rewrite F2. rewrite find_prefix by apply HnoneAB.
      eval_rows. reflexivity.
    - rewrite F3. rewrite find_prefix by apply HnoneBA.
      eval_rows. reflexivity. }
  rewrite E3. cbn [result statements after withFriendships friendships].
  repeat split; unfold direction; cbn [friendships withFriendships].
  - rewrite filter_prefix by assumption. eval_rows. reflexivity.
  - rewrite filter_prefix by assumption. eval_rows. reflexivity.
Qed.

Lemma cross_requests_accept_witness :
  friendships
    (after (call (Accept 2 1)
       (after (call (Send 2 1)
          (after (call (Send 1 2) (emptyStore [1; 2] true)))))))
  = [mkFriendship 1 1 2 accepted; mkFriendship 2 2 1 accepted].
Proof.
  assert (Hne : 1 <> 2) by discriminate.
  assert (Hwf : well_formed (emptyStore [1; 2] true))
    by (split; simpl; constructor).
  assert (HA : In 1 (users (emptyStore [1; 2] true)))
    by (simpl; left; reflexivity).
  assert (HB : In 2 (users (emptyStore [1; 2] true)))
    by (simpl; right; left; reflexivity).
  exact (proj1 (proj2 (proj2 (proj2 (proj2
           (cross_requests_accept 1 2 (emptyStore [1; 2] true)
              Hne Hwf HA HB eq_refl eq_refl)))))).
Defined.

(** C3.  When the direction [(A, B)] holds exactly one row, with status
    [requested], and the direction [(B, A)] holds none, [accept] called by [B]
    for [A] succeeds and leaves exactly two rows between them: the inbound
    row, under its id, now with status [accepted], and a newly inserted row
    [(B, A)] with status [accepted] under the next generated id.  Every row
    of another direction is kept as it was. *)
Theorem accept_one_sided (A B : Id) (d : Database) (r : Friendship) :
  direction A B d = [r] -> status r = requested -> direction B A d = [] ->
  let o := call (Accept B A) d in
  result o = Ok tt
  /\ statements o
     = [SelectFromFriendships (Some (id r)); Begin;
        UpdateFriendships accepted 1; SelectFromFriendships None;
        InsertIntoFriendships B A accepted; Commit]
  /\ direction A B (after o) = [mkFriendship (id r) A B accepted]
  /\ direction B A (after o) = [mkFriendship (nextId d) B A accepted]
  /\ length (friendships (after o)) = S (length (friendships d))
  /\ (forall x, In x (friendships d) -> sameDirection A B x = false ->
        In x (friendships (after o))).
Proof.
  intros HdAB Hs HdBA.
  destruct (find_sole_requested _ _ _ _ HdAB Hs) as [Hfind Hcount].
  destruct (direction_sole_in _ _ _ _ HdAB) as [Hr Hsd].
  pose proof (direction_absent _ _ _ HdBA) as HabsBA.
  assert (Hne : A <> B).
  { apply (direction_distinct A B d r []); [assumption|].
    rewrite HdAB, HdBA. discriminate. }
  assert (Habs' : forall x, In x (answered B A d accepted) ->
                    sameDirection B A x = false).
  { intros x Hx. unfold answered in Hx.
    apply in_map_iff in Hx as (x0 & <- & Hx0).
    rewrite sameDirection_updated. now apply HabsBA. }
  assert (E : call (Accept B A) d
              = {| result := Ok tt;
                   statements :=
                     [SelectFromFriendships (Some (id r)); Begin;
                      UpdateFriendships accepted 1; SelectFromFriendships None;
                      InsertIntoFriendships B A accepted; Commit];
                   after := withInserted d (answered B A d accepted)
                              B A accepted |}).
  { rewrite (accept_inserts B A d r).
    - now rewrite Hcount.
    - exact Hfind.
    - apply find_absent. now apply not_matching_absent.
    - rewrite existsb_absent by assumption. apply andb_false_r. }
  cbv zeta. rewrite E. cbn [result statements after withInserted friendships].
  repeat split.
  - unfold direction. cbn [friendships withInserted]. rewrite filter_app.
    unfold answered. rewrite direction_updated.
    fold (direction A B d). rewrite HdAB. cbn [map filter].
    rewrite (sameDirection_reverse B A) by
      (try apply sameDirection_inserted; congruence).
    rewrite updated_hit, app_nil_r.
    + apply sameDirection_spec in Hsd as [Hu Hf].
      unfold setStatus. now rewrite Hu, Hf.
    + rewrite matching_sameDirection, Hsd. now apply whereStatus_spec.
  - unfold direction. cbn [friendships withInserted]. rewrite filter_app.
    unfold answered. rewrite direction_updated.
    fold (direction B A d). rewrite HdBA. cbn [map filter app].
    now rewrite sameDirection_inserted.
  - rewrite length_app. unfold answered. rewrite length_map. simpl. lia.
  - intros x Hx Hsx. apply in_or_app. left. unfold answered.
    apply in_map_iff. exists x. split; [|assumption].
    apply updated_miss. now rewrite matching_sameDirection, Hsx.
Qed.

Lemma accept_one_sided_witness :
  direction 1 2
    (after (call (Accept 2 1)
       {| users := [1; 2];
          friendships := [mkFriendship 1 1 2 requested];
          nextId := 2; uniqueDirection := true |}))
  = [mkFriendship 1 1 2 accepted]
  /\ direction 2 1
       (after (call (Accept 2 1)
          {| users := [1; 2];
             friendships := [mkFriendship 1 1 2 requested];
             nextId := 2; uniqueDirection := true |}))
     = [mkFriendship 2 2 1 accepted].
Proof.
  destruct (accept_one_sided 1 2
              {| users := [1; 2];
                 friendships := [mkFriendship 1 1 2 requested];
                 nextId := 2; uniqueDirection := true |}
              (mkFriendship 1 1 2 requested) eq_refl eq_refl eq_refl)
    as (_ & _ & HAB & HBA & _).
  split; [exact HAB|exact HBA].
Defined.



(** C7, as the router behaves.  When the only row of the direction [(A, B)]
    already has status [accepted], [accept] called by [B] for [A] changes
    nothing, but not through an update that matches no row: the guard
    [canAnswerFriendshipRequest] finds no requested row and throws
    [TRPCError BAD_REQUEST]; no transaction is opened, no update is issued,
    and the store is the one the request found. *)
Theorem accept_on_accepted (A B : Id) (d : Database) (r : Friendship) :
  direction A B d = [r] -> status r = accepted ->
  let o := call (Accept B A) d in
  result o = Throw (TRPCError BAD_REQUEST)
  /\ statements o = [SelectFromFriendships None]
  /\ after o = d
  /\ In r (friendships (after o)).
Proof.
  intros Hd Hs.
  destruct (direction_sole_in _ _ _ _ Hd) as [Hr _].
  assert (Hnone : find (matching A B requested) (friendships d) = None).
  { apply find_absent. intros x Hx.
    destruct (matching A B requested x) eqn:E; [|reflexivity].
    assert (x = r).
    { apply (direction_sole A B d r x Hd Hx).
      rewrite matching_sameDirection in E. now apply andb_true_iff in E. }
    subst x. apply matching_spec in E as (_ & _ & E). congruence. }
  cbv zeta. rewrite (accept_not_requested B A d Hnone).
  repeat split. exact Hr.
Qed.

Lemma accept_on_accepted_witness :
  result
    (call (Accept 2 1)
       {| users := [1; 2];
          friendships := [mkFriendship 1 1 2 accepted;
                          mkFriendship 2 2 1 accepted];
          nextId := 3; uniqueDirection := true |})
  = Throw (TRPCError BAD_REQUEST).
Proof.
  exact (proj1
    (accept_on_accepted 1 2
       {| users := [1; 2];
          friendships := [mkFriendship 1 1 2 accepted;
                          mkFriendship 2 2 1 accepted];
          nextId := 3; uniqueDirection := true |}
       (mkFriendship 1 1 2 accepted) eq_refl eq_refl)).
Defined.

(** C7, as stated, fails.  After [Send 1 2] and [Accept 2 1] the inbound row
    [(1, 2)] is [accepted]; a second [Accept 2 1] does not commit a
    transaction whose update matched zero rows: it throws. *)
Lemma accept_on_accepted_counterexample :
  let d := snd (serve [Send 1 2; Accept 2 1] (emptyStore [1; 2] true)) in
  let o := call (Accept 2 1) d in
  In (mkFriendship 1 1 2 accepted) (friendships d)
  /\ result o = Throw (TRPCError BAD_REQUEST)
  /\ ~ (result o = Ok tt
        /\ In (UpdateFriendships accepted 0) (statements o)
        /\ In Commit (statements o)).
Proof.
  cbv zeta. split; [|split].
  - vm_compute. left. reflexivity.
  - vm_compute. reflexivity.
  - intros [H _]. vm_compute in H. discriminate H.
Qed.

(** C9.  When the only row of the direction [(A, B)] has status [requested]
    or [accepted], and [B] is a known user, [send] called by [A] for [B] finds
    nothing to re-send (its select looks for [declined] only) and issues an
    insert of [(A, B, requested)], with no update.  On a table that accepts
    several rows per direction the insert adds a second [(A, B)] row and the
    first is untouched; on a table that enforces one row per direction the
    insert is rejected and the store is unchanged. *)
Theorem send_while_pending (A B : Id) (d : Database) (r : Friendship) :
  In B (users d) ->
  direction A B d = [r] ->
  status r = requested \/ status r = accepted ->
  let o := call (Send A B) d in
  statements o
  = [SelectFromUsers (Some B); SelectFromFriendships None;
     InsertIntoFriendships A B requested]
  /\ (uniqueDirection d = false ->
        result o = Ok tt
        /\ friendships (after o) = friendships d ++ [inserted d A B requested]
        /\ direction A B (after o) = [r; inserted d A B requested])
  /\ (uniqueDirection d = true ->
        result o = Throw ConstraintViolation /\ after o = d).
Proof.
  intros HB Hd Hs.
  destruct (direction_sole_in _ _ _ _ Hd) as [Hr Hsd].
  assert (Hnone : find (matching A B declined) (friendships d) = None).
  { apply find_absent. intros x Hx.
    destruct (matching A B declined x) eqn:E; [|reflexivity].
    assert (x = r).
    { apply (direction_sole A B d r x Hd Hx).
      rewrite matching_sameDirection in E. now apply andb_true_iff in E. }
    subst x. apply matching_spec in E as (_ & _ & E).
    destruct Hs; congruence. }
  assert (Hex : existsb (sameDirection A B) (friendships d) = true)
    by now apply existsb_present with r.
  cbv zeta. destruct (uniqueDirection d) eqn:Hu.
  - rewrite send_rejected by (try assumption; now rewrite Hu, Hex).
    cbn [result statements after]. repeat split; intros; discriminate.
  - rewrite send_inserts by (try assumption; now rewrite Hu).
    cbn [result statements after withInserted friendships].
    repeat split; try (intros; discriminate).
    unfold direction. cbn [friendships withInserted].
    rewrite filter_app. fold (direction A B d). rewrite Hd.
    cbn [filter app]. now rewrite sameDirection_inserted.
Qed.

Lemma send_while_pending_witness :
  direction 1 2
    (after (call (Send 1 2)
       {| users := [1; 2];
          friendships := [mkFriendship 1 1 2 requested];
          nextId := 2; uniqueDirection := false |}))
  = [mkFriendship 1 1 2 requested; mkFriendship 2 1 2 requested].
Proof.
  assert (HB : In 2 (users
                 {| users := [1; 2];
                    friendships := [mkFriendship 1 1 2 requested];
                    nextId := 2; uniqueDirection := false |}))
    by (simpl; right; left; reflexivity).
  exact (proj2 (proj2 (proj1 (proj2
    (send_while_pending 1 2 _ (mkFriendship 1 1 2 requested)
       HB eq_refl (or_introl eq_refl))) eq_refl))).
Defined.

(** C10, as the router behaves.  When the only row of the direction [(A, B)]
    is [requested] and the only row of the direction [(B, A)] is [declined],
    [accept] called by [B] for [A] passes the guard, accepts the inbound row,
    finds no reverse row (its select looks for [requested] only) and issues an
    insert of [(B, A, accepted)].  On a table that enforces one row per
    direction the store rejects that insert: [accept] throws
    [ConstraintViolation], the transaction is rolled back and the store is
    unchanged, so the inbound row is still [requested] and the declined row
    is still the only row of its direction.  Only on a table that accepts
    several rows per direction does the transaction commit, leaving the
    inbound row [accepted] and two rows in the direction [(B, A)]: the
    declined one untouched and the new accepted one. *)
Theorem accept_with_declined_reverse (A B : Id) (d : Database)
  (r1 r2 : Friendship) :
  direction A B d = [r1] -> status r1 = requested ->
  direction B A d = [r2] -> status r2 = declined ->
  let o := call (Accept B A) d in
  firstn 5 (statements o)
  = [SelectFromFriendships (Some (id r1)); Begin;
     UpdateFriendships accepted 1; SelectFromFriendships None;
     InsertIntoFriendships B A accepted]
  /\ (uniqueDirection d = true ->
        result o = Throw ConstraintViolation
        /\ skipn 5 (statements o) = [Rollback]
        /\ after o = d
        /\ direction A B (after o) = [r1]
        /\ direction B A (after o) = [r2])
  /\ (uniqueDirection d = false ->
        result o = Ok tt
        /\ skipn 5 (statements o) = [Commit]
        /\ direction A B (after o) = [mkFriendship (id r1) A B accepted]
        /\ direction B A (after o)
           = [r2; mkFriendship (nextId d) B A accepted]).
Proof.
  intros HdAB Hs1 HdBA Hs2.
  destruct (find_sole_requested _ _ _ _ HdAB Hs1) as [Hfind Hcount].
  destruct (direction_sole_in _ _ _ _ HdAB) as [Hr1 Hsd1].
  destruct (direction_sole_in _ _ _ _ HdBA) as [Hr2 Hsd2].
  assert (Hne : A <> B).
  { intros ->. rewrite HdAB in HdBA. congruence. }
  assert (Hm1 : matching A B requested r1 = true).
  { rewrite matching_sameDirection, Hsd1. now apply whereStatus_spec. }
  assert (Hm2 : matching A B requested r2 = false).
  { rewrite matching_sameDirection.
    rewrite (sameDirection_reverse B A) by congruence. reflexivity. }
  assert (Hnone : find (matching B A requested) (answered B A d accepted)
                  = None).
  { apply find_absent. intros x Hx. unfold answered in Hx.
    apply in_map_iff in Hx as (x0 & <- & Hx0).
    destruct (matching B A requested
                (updated accepted (matching A B requested) x0)) eqn:E;
      [|reflexivity].
    assert (Hsd : sameDirection B A x0 = true).
    { rewrite matching_sameDirection, sameDirection_updated in E.
      now apply andb_true_iff in E. }
    assert (x0 = r2) by now apply (direction_sole B A d r2 x0).
    subst x0. rewrite updated_miss in E by assumption.
    apply matching_spec in E as (_ & _ & E). congruence. }
  assert (Hex : existsb (sameDirection B A) (answered B A d accepted) = true).
  { apply existsb_present with r2; [|assumption].
    unfold answered. apply in_map_iff. exists r2.
    split; [now apply updated_miss|assumption]. }
  cbv zeta. destruct (uniqueDirection d) eqn:Hu.
  - rewrite (accept_rejected B A d r1)
      by (try assumption; now rewrite Hu, Hex).
    rewrite Hcount. cbn [result statements after firstn skipn].
    repeat split; try (intros; discriminate); assumption.
  - rewrite (accept_inserts B A d r1) by (try assumption; now rewrite Hu).
    rewrite Hcount.
    cbn [result statements after firstn skipn withInserted friendships].
    repeat split; try (intros; discriminate).
    + unfold direction. cbn [friendships withInserted]. rewrite filter_app.
      unfold answered. rewrite direction_updated.
      fold (direction A B d). rewrite HdAB. cbn [map filter].
      rewrite (sameDirection_reverse B A) by
        (try apply sameDirection_inserted; congruence).
      rewrite updated_hit by assumption. rewrite app_nil_r.
      apply sameDirection_spec in Hsd1 as [Hu1 Hf1].
      unfold setStatus. now rewrite Hu1, Hf1.
    + unfold direction. cbn [friendships withInserted]. rewrite filter_app.
      unfold answered. rewrite direction_updated.
      fold (direction B A d). rewrite HdBA. cbn [map filter].
      rewrite sameDirection_inserted.
      now rewrite updated_miss by assumption.
Qed.

Lemma accept_with_declined_reverse_witness :
  result
    (call (Accept 2 1)
       {| users := [1; 2];
          friendships := [mkFriendship 1 2 1 declined;
                          mkFriendship 2 1 2 requested];
          nextId := 3; uniqueDirection := true |})
  = Throw ConstraintViolation
  /\ direction 2 1
       (after (call (Accept 2 1)
          {| users := [1; 2];
             friendships := [mkFriendship 1 2 1 declined;
                             mkFriendship 2 1 2 requested];
             nextId := 3; uniqueDirection := true |}))
     = [mkFriendship 1 2 1 declined].
Proof.
  destruct (accept_with_declined_reverse 1 2
              {| users := [1; 2];
                 friendships := [mkFriendship 1 2 1 declined;
                                 mkFriendship 2 1 2 requested];
                 nextId := 3; uniqueDirection := true |}
              (mkFriendship 2 1 2 requested) (mkFriendship 1 2 1 declined)
              eq_refl eq_refl eq_refl eq_refl)
    as (_ & Hunique & _).
  destruct (Hunique eq_refl) as (Hres & _ & _ & _ & Hdir).
  split; [exact Hres|exact Hdir].
Defined.

(** C10, as stated, fails.  On a table that enforces one row per direction,
    user 2 sends to user 1, user 1 declines and then sends to user 2: the
    store holds [(1, 2, requested)] and [(2, 1, declined)].  [Accept 2 1]
    does not leave a second row for the direction [(2, 1)]: it throws, the
    declined row is still alone in its direction and no accepted row
    exists. *)
Lemma accept_with_declined_reverse_counterexample :
  let d := snd (serve [Send 2 1; Decline 1 2; Send 1 2]
                  (emptyStore [1; 2] true)) in
  let o := call (Accept 2 1) d in
  In (mkFriendship 2 1 2 requested) (friendships d)
  /\ In (mkFriendship 1 2 1 declined) (friendships d)
  /\ result o = Throw ConstraintViolation
  /\ direction 2 1 (after o) = [mkFriendship 1 2 1 declined]
  /\ length (direction 2 1 (after o)) <> 2%nat
  /\ ~ exists x, In x (friendships (after o))
                 /\ userId x = 2 /\ friendUserId x = 1
                 /\ status x = accepted.
Proof.
  cbv zeta. repeat split.
  - vm_compute. right. left. reflexivity.
  - vm_compute. left. reflexivity.
  - vm_compute. discriminate.
  - intros (x & Hx & Hu & _ & Hs). vm_compute in Hx.
    destruct Hx as [<-|[<-|[]]]; simpl in *; discriminate.
Qed.

(** ** Further properties of the handlers *)

(** Case analysis on what a request does, following the branches of its
    handler. *)
Ltac send_cases a b d :=
  let Hb := fresh "Hb" in
  let Hr := fresh "Hr" in
  let Hu := fresh "Hu" in
  let r := fresh "r" in
  destruct (in_dec Z.eq_dec b (users d)) as [Hb|Hb];
  [ destruct (find (matching a b declined) (friendships d)) as [r|] eqn:Hr;
    [ rewrite (send_resends a b d r Hb Hr)
    | destruct (uniqueDirection d
                && existsb (sameDirection a b) (friendships d)) eqn:Hu;
      [ rewrite (send_rejected a b d Hb Hr Hu)
      | rewrite (send_inserts a b d Hb Hr Hu) ] ]
  | rewrite (send_unknown a b d Hb) ].

Ltac accept_cases a b d :=
  let Hr := fresh "Hr" in
  let Ho := fresh "Ho" in
  let Hu := fresh "Hu" in
  let r := fresh "r" in
  let o := fresh "o" in
  destruct (find (matching b a requested) (friendships d)) as [r|] eqn:Hr;
  [ destruct (find (matching a b requested) (answered a b d accepted))
      as [o|] eqn:Ho;
    [ rewrite (accept_updates a b d r o Hr Ho)
    | destruct (uniqueDirection d
                && existsb (sameDirection a b) (answered a b d accepted))
        eqn:Hu;
      [ rewrite (accept_rejected a b d r Hr Ho Hu)
      | rewrite (accept_inserts a b d r Hr Ho Hu) ] ]
  | rewrite (accept_not_requested a b d Hr) ].

Ltac decline_cases a b d :=
  let Hr := fresh "Hr" in
  let r := fresh "r" in
  destruct (find (matching b a requested) (friendships d)) as [r|] eqn:Hr;
  [ rewrite (decline_runs a b d r Hr)
  | rewrite (decline_not_requested a b d Hr) ].

(** X1.  A request that throws leaves the store exactly as it found it,
    whichever handler it is and wherever it threw: in a middleware, in
    [send]'s insert, or inside the transaction of [accept], whose update is
    then rolled back. *)
Theorem failed_request_leaves_store (c : Call) (d : Database) (e : Error) :
  result (call c d) = Throw e -> after (call c d) = d.
Proof.
  destruct c as [a b|a b|a b].
  - send_cases a b d; cbn [result after]; intros H;
      try discriminate H; reflexivity.
  - accept_cases a b d; cbn [result after]; intros H;
      try discriminate H; reflexivity.
  - decline_cases a b d; cbn [result after]; intros H;
      try discriminate H; reflexivity.
Qed.

Lemma failed_request_leaves_store_witness :
  after (call (Accept 1 1)
           {| users := [1];
              friendships := [mkFriendship 1 1 1 requested];
              nextId := 2; uniqueDirection := true |})
  = {| users := [1];
       friendships := [mkFriendship 1 1 1 requested];
       nextId := 2; uniqueDirection := true |}.
Proof.
  exact (failed_request_leaves_store (Accept 1 1)
           {| users := [1];
              friendships := [mkFriendship 1 1 1 requested];
              nextId := 2; uniqueDirection := true |}
           ConstraintViolation eq_refl).
Defined.

Lemma key_updated (s : FriendshipStatus) (p : Friendship -> bool)
  (rows : list Friendship) :
  map (fun r => (id r, userId r, friendUserId r)) (map (updated s p) rows)
  = map (fun r => (id r, userId r, friendUserId r)) rows.
Proof.
  rewrite map_map. apply map_ext. intros r. unfold updated.
  now destruct (p r).
Qed.

(** X2.  No request deletes a row, re-keys it, or changes its direction or
    its position: the [(id, userId, friendUserId)] columns of the table after
    a request are those before it, followed by at most one new row.  The id
    generator advances by exactly the number of rows added, and the [users]
    table is never written. *)
Theorem request_keeps_rows (c : Call) (d : Database) :
  users (after (call c d)) = users d
  /\ uniqueDirection (after (call c d)) = uniqueDirection d
  /\ exists extra,
       map (fun r => (id r, userId r, friendUserId r))
           (friendships (after (call c d)))
       = map (fun r => (id r, userId r, friendUserId r)) (friendships d)
         ++ extra
       /\ (length extra <= 1)%nat
       /\ nextId (after (call c d)) = nextId d + Z.of_nat (length extra).
Proof.
  destruct (call_effect c d) as [|a b o Ho|a b Hu|a b|a b o Ho|a b Hu];
    (split; [reflexivity|split; [reflexivity|]]).
  - exists []. rewrite app_nil_r. repeat split; simpl; lia.
  - exists []. cbn [friendships withFriendships nextId].
    rewrite key_updated, app_nil_r. repeat split; simpl; lia.
  - exists [(nextId d, a, b)]. cbn [friendships withInserted nextId].
    rewrite map_app. repeat split; simpl; lia.
  - exists []. cbn [friendships withFriendships nextId]. unfold answered.
    rewrite key_updated, app_nil_r. repeat split; simpl; lia.
  - exists []. cbn [friendships withFriendships nextId]. unfold answered.
    rewrite !key_updated, app_nil_r. repeat split; simpl; lia.
  - exists [(nextId d, a, b)]. cbn [friendships withInserted nextId].
    unfold answered. rewrite map_app, key_updated. repeat split; simpl; lia.
Qed.

Lemma find_hit_count (p : Friendship -> bool) (rows : list Friendship)
  (r : Friendship) :
  find p rows = Some r -> (0 < length (filter p rows))%nat.
Proof.
  intros H. apply find_some in H as [Hr Hp]. now apply filter_present with r.
Qed.

Lemma whereId_hit_count (p : Friendship -> bool) (rows : list Friendship)
  (r : Friendship) :
  find p rows = Some r ->
  (0 < length (filter (whereId (id r)) rows))%nat.
Proof.
  intros H. apply find_some in H as [Hr _].
  apply filter_present with r; [assumption|].
  unfold whereId. apply Z.eqb_refl.
Qed.

(** X4.  No request ever issues an update that matches no row: the guarded
    updates of [accept] and [decline] run only after the guard found a row
    they match, and the updates by id of [send] and [accept] target a row the
    preceding select returned. *)
Theorem no_empty_update (c : Call) (d : Database) (s : FriendshipStatus) :
  ~ In (UpdateFriendships s 0) (statements (call c d)).
Proof.
  destruct c as [a b|a b|a b];
    [send_cases a b d|accept_cases a b d|decline_cases a b d];
    cbn [statements]; intros H;
    repeat (destruct H as [H|H]; [try discriminate H|]);
    try contradiction;
    injection H; intros;
    first [ pose proof (find_hit_count _ _ _ Hr); lia
          | pose proof (whereId_hit_count _ _ _ Hr); lia
          | pose proof (whereId_hit_count _ _ _ Ho); lia ].
Qed.

Lemma find_none_no_row (u f : Id) (s : FriendshipStatus) (rows : list Friendship) :
  find (matching u f s) rows = None ->
  ~ exists r, In r rows
              /\ userId r = u /\ friendUserId r = f /\ status r = s.
Proof.
  intros H (r & Hr & Hm). apply matching_spec in Hm.
  rewrite (find_none _ _ H r Hr) in Hm. discriminate.
Qed.

Lemma find_some_row (u f : Id) (s : FriendshipStatus) (rows : list Friendship)
  (r : Friendship) :
  find (matching u f s) rows = Some r ->
  exists r, In r rows /\ userId r = u /\ friendUserId r = f /\ status r = s.
Proof.
  intros H. apply find_some in H as [Hr Hm]. exists r.
  split; [assumption|]. now apply matching_spec.
Qed.

Lemma existsb_direction (u f : Id) (d : Database) :
  existsb (sameDirection u f) (friendships d) = false <-> direction u f d = [].
Proof.
  split; intros H.
  - apply filter_absent. intros x Hx.
    destruct (sameDirection u f x) eqn:E; [|reflexivity].
    rewrite <- H. symmetry. now apply existsb_present with x.
  - apply existsb_absent. now apply direction_absent.
Qed.

Lemma unique_and_present (u f : Id) (d : Database) (b : bool) :
  uniqueDirection d && existsb (sameDirection u f) (friendships d) = b ->
  (uniqueDirection d = false \/ direction u f d = []) <-> b = false.
Proof.
  intros <-. rewrite andb_false_iff, existsb_direction. reflexivity.
Qed.

(** X5.  What decides the outcome of [send].  It succeeds exactly when the
    target is a known user and either a declined row [(a, b)] is there to be
    re-sent, or the table takes the insert (it does not enforce one row per
    direction, or the direction is still empty).  It throws
    [TRPCError BAD_REQUEST] exactly when the target is unknown; any other
    failure is the store rejecting the insert. *)
Theorem send_outcome (a b : Id) (d : Database) :
  (result (call (Send a b) d) = Ok tt
   <-> In b (users d)
       /\ ((exists r, In r (friendships d)
                      /\ userId r = a /\ friendUserId r = b
                      /\ status r = declined)
           \/ uniqueDirection d = false \/ direction a b d = []))
  /\ (result (call (Send a b) d) = Throw (TRPCError BAD_REQUEST)
      <-> ~ In b (users d))
  /\ (result (call (Send a b) d) = Throw ConstraintViolation
      <-> In b (users d)
          /\ uniqueDirection d = true /\ direction a b d <> []
          /\ ~ exists r, In r (friendships d)
                         /\ userId r = a /\ friendUserId r = b
                         /\ status r = declined).
Proof.
  send_cases a b d; cbn [result].
  - pose proof (find_some_row _ _ _ _ _ Hr) as Hrow.
    repeat split; try discriminate; try tauto.
  - pose proof (find_none_no_row _ _ _ _ Hr) as Hrow.
    pose proof (unique_and_present _ _ _ _ Hu) as Hins.
    apply andb_true_iff in Hu as [Hu He].
    assert (Hdir : direction a b d <> []).
    { intros E. apply existsb_direction in E. congruence. }
    repeat split; try discriminate; try tauto.
    intros (_ & [H|H]); [contradiction|].
    apply Hins in H. discriminate.
  - pose proof (unique_and_present _ _ _ _ Hu) as Hins.
    assert (Hok : uniqueDirection d = false \/ direction a b d = [])
      by now apply Hins.
    repeat split; try discriminate; try tauto.
    intros (_ & Hut & Hdir & _). destruct Hok; congruence.
  - repeat split; try discriminate; try tauto.
Qed.

(** X6.  [decline] has two outcomes only.  It succeeds exactly when a
    requested row from [b] to the caller [a] exists; otherwise it throws
    [TRPCError BAD_REQUEST].  It never issues an insert, so the store never
    rejects it. *)
Theorem decline_outcome (a b : Id) (d : Database) :
  (result (call (Decline a b) d) = Ok tt
   <-> exists r, In r (friendships d)
                 /\ userId r = b /\ friendUserId r = a
                 /\ status r = requested)
  /\ (result (call (Decline a b) d) = Ok tt
      \/ result (call (Decline a b) d) = Throw (TRPCError BAD_REQUEST))
  /\ (forall u f s,
        ~ In (InsertIntoFriendships u f s) (statements (call (Decline a b) d))).
Proof.
  decline_cases a b d; cbn [result statements].
  - pose proof (find_some_row _ _ _ _ _ Hr) as Hrow.
    repeat split; try tauto.
    intros u f s H.
    repeat (destruct H as [H|H]; [discriminate H|]). contradiction.
  - pose proof (find_none_no_row _ _ _ _ Hr) as Hrow.
    repeat split; try discriminate; try tauto.
    intros u f s H.
    repeat (destruct H as [H|H]; [discriminate H|]). contradiction.
Qed.

(** ** The table after an answer *)

Lemma matching_setStatus_other (u f : Id) (s : FriendshipStatus) (r : Friendship) :
  s <> requested -> matching u f requested (setStatus s r) = false.
Proof.
  intros Hs. rewrite matching_sameDirection.
  assert (E : whereStatus requested (setStatus s r) = false)
    by (destruct s; [contradiction|reflexivity|reflexivity]).
  rewrite E. apply andb_false_r.
Qed.

Lemma answered_no_pending (a b : Id) (d : Database) (s : FriendshipStatus) :
  s <> requested ->
  forall x, In x (answered a b d s) -> matching b a requested x = false.
Proof.
  intros Hs x Hx. unfold answered in Hx.
  apply in_map_iff in Hx as (x0 & <- & _). unfold updated.
  destruct (matching b a requested x0) eqn:E; [|exact E].
  now apply matching_setStatus_other.
Qed.

Lemma updated_keeps_no_pending (u f : Id) (s : FriendshipStatus)
  (p : Friendship -> bool) (rows : list Friendship) :
  s <> requested ->
  (forall x, In x rows -> matching u f requested x = false) ->
  forall y, In y (map (updated s p) rows) -> matching u f requested y = false.
Proof.
  intros Hs H y Hy. apply in_map_iff in Hy as (x & <- & Hx). unfold updated.
  destruct (p x); [now apply matching_setStatus_other|now apply H].
Qed.

Lemma existsb_answered (u f a b : Id) (d : Database) (s : FriendshipStatus) :
  existsb (sameDirection u f) (answered a b d s)
  = existsb (sameDirection u f) (friendships d).
Proof.
  unfold answered. induction (friendships d) as [|x rows IH]; [reflexivity|].
  simpl. now rewrite sameDirection_updated, IH.
Qed.

(** The reverse lookup of [accept] hits exactly when the accepter had a
    request of their own pending towards the other user. *)
Lemma reverse_lookup_iff (a b : Id) (d : Database) :
  (exists o, find (matching a b requested) (answered a b d accepted) = Some o)
  <-> a <> b
      /\ exists r, In r (friendships d)
                   /\ userId r = a /\ friendUserId r = b
                   /\ status r = requested.
Proof.
  split.
  - intros [o Ho]. apply find_some in Ho as [Hin Hm].
    unfold answered in Hin. apply in_map_iff in Hin as (x & E & Hx).
    unfold updated in E.
    destruct (matching b a requested x) eqn:Ex.
    + rewrite <- E in Hm.
      rewrite matching_setStatus_other in Hm by discriminate. discriminate.
    + subst o. split.
      * intros ->. congruence.
      * exists x. split; [assumption|]. now apply matching_spec.
  - intros (Hne & r & Hr & Hu & Hf & Hs).
    assert (Hm : matching a b requested r = true)
      by (apply matching_spec; auto).
    assert (Hrev : matching b a requested r = false).
    { destruct (matching b a requested r) eqn:E; [|reflexivity].
      apply matching_spec in E as (E1 & E2 & _). congruence. }
    assert (Hin : In r (answered a b d accepted)).
    { unfold answered. apply in_map_iff. exists r.
      split; [now apply updated_miss|assumption]. }
    destruct (find_present _ _ _ Hin Hm) as (o & Ho & _). now exists o.
Qed.

(** X7.  What decides the outcome of [accept].  It throws
    [TRPCError BAD_REQUEST] exactly when no requested row from [b] to the
    caller [a] exists.  It succeeds exactly when such a row exists and the
    reverse half can be written: either [a] has a request of its own pending
    towards another user [b], which is updated, or the table takes the insert
    of the reverse row (it does not enforce one row per direction, or the
    direction [(a, b)] is empty). *)
Theorem accept_outcome (a b : Id) (d : Database) :
  (result (call (Accept a b) d) = Throw (TRPCError BAD_REQUEST)
   <-> ~ exists r, In r (friendships d)
                   /\ userId r = b /\ friendUserId r = a
                   /\ status r = requested)
  /\ (result (call (Accept a b) d) = Ok tt
      <-> (exists r, In r (friendships d)
                     /\ userId r = b /\ friendUserId r = a
                     /\ status r = requested)
          /\ ((a <> b
               /\ exists r, In r (friendships d)
                            /\ userId r = a /\ friendUserId r = b
                            /\ status r = requested)
              \/ uniqueDirection d = false \/ direction a b d = [])).
Proof.
  accept_cases a b d; cbn [result].
  - pose proof (find_some_row _ _ _ _ _ Hr) as Hrow.
    assert (Hown : a <> b
                   /\ exists r, In r (friendships d)
                                /\ userId r = a /\ friendUserId r = b
                                /\ status r = requested)
      by (apply (reverse_lookup_iff a b d); now exists o).
    repeat split; try discriminate; try tauto.
  - pose proof (find_some_row _ _ _ _ _ Hr) as Hrow.
    rewrite existsb_answered in Hu.
    pose proof (unique_and_present _ _ _ _ Hu) as Hins.
    assert (Hown : ~ (a <> b
                      /\ exists r, In r (friendships d)
                                   /\ userId r = a /\ friendUserId r = b
                                   /\ status r = requested)).
    { intros H. apply (reverse_lookup_iff a b d) in H as [o' H].
      congruence. }
    repeat split; try discriminate; try tauto.
    intros (_ & [H|H]); [contradiction|].
    apply Hins in H. discriminate.
  - pose proof (find_some_row _ _ _ _ _ Hr) as Hrow.
    rewrite existsb_answered in Hu.
    pose proof (unique_and_present _ _ _ _ Hu) as Hins.
    assert (Hok : uniqueDirection d = false \/ direction a b d = [])
      by now apply Hins.
    repeat split; try discriminate; try tauto.
  - pose proof (find_none_no_row _ _ _ _ Hr) as Hrow.
    repeat split; try discriminate; try tauto.
Qed.

Lemma matching_inserted_other (d : Database) (u f u' f' : Id)
  (s s' : FriendshipStatus) :
  s <> s' -> matching u' f' s' (inserted d u f s) = false.
Proof.
  intros Hs. rewrite matching_sameDirection.
  assert (E : whereStatus s' (inserted d u f s) = false)
    by (destruct s, s'; try reflexivity; contradiction).
  rewrite E. apply andb_false_r.
Qed.

Lemma accept_leaves_no_pending (a b : Id) (d : Database) :
  result (call (Accept a b) d) = Ok tt ->
  forall x, In x (friendships (after (call (Accept a b) d))) ->
    matching b a requested x = false.
Proof.
  accept_cases a b d; cbn [result after]; intros H; try discriminate H;
    cbn [friendships withFriendships withInserted].
  - apply updated_keeps_no_pending; [discriminate|].
    apply answered_no_pending. discriminate.
  - intros x Hx. apply in_app_or in Hx as [Hx|[<-|[]]].
    + revert x Hx. apply answered_no_pending. discriminate.
    + apply matching_inserted_other. discriminate.
Qed.

Lemma decline_leaves_no_pending (a b : Id) (d : Database) :
  result (call (Decline a b) d) = Ok tt ->
  forall x, In x (friendships (after (call (Decline a b) d))) ->
    matching b a requested x = false.
Proof.
  decline_cases a b d; cbn [result after]; intros H; try discriminate H.
  cbn [friendships withFriendships].
  apply answered_no_pending. discriminate.
Qed.

Lemma matching_updated_same (u f : Id) (s : FriendshipStatus)
  (p : Friendship -> bool) (x : Friendship) :
  matching u f s x = true -> matching u f s (updated s p x) = true.
Proof.
  intros H. unfold updated. destruct (p x); [|exact H].
  apply matching_spec in H as (Hu & Hf & _). apply matching_spec. auto.
Qed.

Lemma matching_updated_hit (u f : Id) (s s' : FriendshipStatus)
  (p : Friendship -> bool) (x : Friendship) :
  matching u f s' x = true -> p x = true ->
  matching u f s (updated s p x) = true.
Proof.
  intros H Hp. rewrite updated_hit by assumption.
  apply matching_spec in H as (Hu & Hf & _). apply matching_spec. auto.
Qed.

Lemma matching_row (u f : Id) (s : FriendshipStatus) (rows : list Friendship)
  (x : Friendship) :
  In x rows -> matching u f s x = true ->
  exists r, In r rows /\ userId r = u /\ friendUserId r = f /\ status r = s.
Proof.
  intros Hx Hm. exists x. split; [assumption|]. now apply matching_spec.
Qed.

(** X8.  A successful [accept] makes the two users mutual friends: in the
    store it leaves, no requested row from [b] to [a] remains, and each of
    the two directions holds an accepted row. *)
Theorem accept_makes_mutual (a b : Id) (d : Database) :
  result (call (Accept a b) d) = Ok tt ->
  (forall x, In x (friendships (after (call (Accept a b) d))) ->
     ~ (userId x = b /\ friendUserId x = a /\ status x = requested))
  /\ (exists x, In x (friendships (after (call (Accept a b) d)))
                /\ userId x = b /\ friendUserId x = a
                /\ status x = accepted)
  /\ (exists y, In y (friendships (after (call (Accept a b) d)))
                /\ userId y = a /\ friendUserId y = b
                /\ status y = accepted).
Proof.
  intros Hok. split.
  { intros x Hx Hm. apply matching_spec in Hm.
    now rewrite (accept_leaves_no_pending a b d Hok x Hx) in Hm. }
  revert Hok.
  accept_cases a b d; cbn [result after]; intros H; try discriminate H;
    cbn [friendships withFriendships withInserted];
    apply find_some in Hr as [Hr Hmr].
  - apply find_some in Ho as [Ho Hmo]. split.
    + apply matching_row
        with (x := updated accepted (whereId (id o))
                     (updated accepted (matching b a requested) r)).
      * apply in_map. unfold answered. now apply in_map.
      * apply matching_updated_same.
        now apply matching_updated_hit with requested.
    + apply matching_row with (x := updated accepted (whereId (id o)) o).
      * now apply in_map.
      * apply matching_updated_hit with requested; [assumption|].
        unfold whereId. apply Z.eqb_refl.
  - split.
    + apply matching_row
        with (x := updated accepted (matching b a requested) r).
      * apply in_or_app. left. unfold answered. now apply in_map.
      * now apply matching_updated_hit with requested.
    + apply matching_row with (x := inserted d a b accepted).
      * apply in_or_app. right. now left.
      * apply matching_inserted.
Qed.

Lemma accept_makes_mutual_witness :
  exists y,
    In y (friendships
            (after (call (Accept 2 1)
               {| users := [1; 2];
                  friendships := [mkFriendship 1 1 2 requested];
                  nextId := 2; uniqueDirection := true |})))
    /\ userId y = 2 /\ friendUserId y = 1 /\ status y = accepted.
Proof.
  exact (proj2 (proj2
    (accept_makes_mutual 2 1
       {| users := [1; 2];
          friendships := [mkFriendship 1 1 2 requested];
          nextId := 2; uniqueDirection := true |} eq_refl))).
Defined.

(** X9.  An answer cannot be given twice.  Once [accept] or [decline] called
    by [a] for [b] has succeeded, the request it answered is no longer
    pending, so a further [accept] or [decline] by [a] for [b] is refused by
    the guard with [TRPCError BAD_REQUEST] and changes nothing. *)
Theorem answer_not_repeatable (a b : Id) (d : Database) (c c' : Call) :
  c = Accept a b \/ c = Decline a b ->
  c' = Accept a b \/ c' = Decline a b ->
  result (call c d) = Ok tt ->
  call c' (after (call c d))
  = {| result := Throw (TRPCError BAD_REQUEST);
       statements := [SelectFromFriendships None];
       after := after (call c d) |}.
Proof.
  intros Hc Hc' Hok.
  assert (Hnone : find (matching b a requested)
                    (friendships (after (call c d))) = None).
  { apply find_absent. destruct Hc as [->| ->].
    - now apply accept_leaves_no_pending.
    - now apply decline_leaves_no_pending. }
  destruct Hc' as [->| ->].
  - now apply accept_not_requested.
  - now apply decline_not_requested.
Qed.

Lemma answer_not_repeatable_witness :
  result
    (call (Decline 2 1)
       (after (call (Accept 2 1)
          {| users := [1; 2];
             friendships := [mkFriendship 1 1 2 requested];
             nextId := 2; uniqueDirection := true |})))
  = Throw (TRPCError BAD_REQUEST).
Proof.
  exact (f_equal result
    (answer_not_repeatable 2 1
       {| users := [1; 2];
          friendships := [mkFriendship 1 1 2 requested];
          nextId := 2; uniqueDirection := true |}
       (Accept 2 1) (Decline 2 1)
       (or_introl eq_refl) (or_intror eq_refl) eq_refl)).
Defined.

Lemma send_leaves_request (a b : Id) (d : Database) :
  result (call (Send a b) d) = Ok tt ->
  exists x, In x (friendships (after (call (Send a b) d)))
            /\ matching a b requested x = true.
Proof.
  send_cases a b d; cbn [result after]; intros H; try discriminate H;
    cbn [friendships withFriendships withInserted].
  - apply find_some in Hr as [Hr Hm].
    exists (updated requested (whereId (id r)) r). split.
    + now apply in_map.
    + apply matching_updated_hit with declined; [assumption|].
      unfold whereId. apply Z.eqb_refl.
  - exists (inserted d a b requested). split.
    + apply in_or_app. right. now left.
    + apply matching_inserted.
Qed.

(** X10.  A successful [send] can always be answered: the store it leaves
    holds a requested row from [a] to [b], so [decline] called by [b] for [a]
    succeeds, and [accept] called by [b] for [a] passes the guard (it is
    never refused with [TRPCError BAD_REQUEST]). *)
Theorem send_enables_answer (a b : Id) (d : Database) :
  result (call (Send a b) d) = Ok tt ->
  (exists x, In x (friendships (after (call (Send a b) d)))
             /\ userId x = a /\ friendUserId x = b /\ status x = requested)
  /\ result (call (Decline b a) (after (call (Send a b) d))) = Ok tt
  /\ result (call (Accept b a) (after (call (Send a b) d)))
     <> Throw (TRPCError BAD_REQUEST).
Proof.
  intros Hok. destruct (send_leaves_request a b d Hok) as (x & Hx & Hm).
  set (d' := after (call (Send a b) d)) in *.
  destruct (find_present _ _ _ Hx Hm) as (o & Ho & _ & _).
  split; [|split].
  - now apply matching_row with x.
  - now rewrite (decline_runs b a d' o Ho).
  - accept_cases b a d'; cbn [result]; try discriminate.
Qed.

Lemma send_enables_answer_witness :
  result (call (Decline 2 1)
            (after (call (Send 1 2) (emptyStore [1; 2] true))))
  = Ok tt.
Proof.
  exact (proj1 (proj2
    (send_enables_answer 1 2 (emptyStore [1; 2] true) eq_refl))).
Defined.



Lemma nth_error_inserted (d : Database) (rows : list Friendship) (u f : Id)
  (s : FriendshipStatus) (i : nat) (x : Friendship) :
  nth_error rows i = Some x ->
  nth_error (friendships (withInserted d rows u f s)) i = Some x.
Proof.
  intros H. cbn [friendships withInserted].
  rewrite nth_error_app1; [assumption|].
  apply nth_error_Some. congruence.
Qed.

Lemma nth_error_updated (s : FriendshipStatus) (p : Friendship -> bool)
  (rows : list Friendship) (i : nat) (x : Friendship) :
  nth_error rows i = Some x -> p x = false ->
  nth_error (map (updated s p) rows) i = Some x.
Proof.
  intros H Hp. rewrite nth_error_map, H. simpl. f_equal.
  now apply updated_miss.
Qed.

Lemma whereId_other_direction (rows : list Friendship) (u f : Id)
  (s : FriendshipStatus) (o x : Friendship) :
  NoDup (map id rows) -> In o rows -> In x rows ->
  matching u f s o = true -> sameDirection u f x = false ->
  whereId (id o) x = false.
Proof.
  intros Hnd Ho Hx Hm Hsd.
  destruct (whereId (id o) x) eqn:E; [|reflexivity].
  apply (whereId_row rows o x Hnd Ho Hx) in E. subst x.
  rewrite matching_sameDirection, Hsd in Hm. discriminate.
Qed.

(** X12.  A request has no effect outside the two users it is about.  In a
    store whose ids are distinct, [send] by [a] to [b] leaves every row that
    is not in the direction [(a, b)] unchanged at its position, [decline] by
    [a] for [b] every row that is not in the direction [(b, a)], and [accept]
    every row that is in neither of the two. *)
Theorem request_frame (c : Call) (d : Database) (i : nat) (x : Friendship) :
  well_formed d ->
  nth_error (friendships d) i = Some x ->
  match c with
  | Send a b => sameDirection a b x = false
  | Decline a b => sameDirection b a x = false
  | Accept a b => sameDirection b a x = false /\ sameDirection a b x = false
  end ->
  nth_error (friendships (after (call c d))) i = Some x.
Proof.
  intros [Hnd _] Hi Hout. pose proof (nth_error_In _ _ Hi) as Hx.
  destruct c as [a b|a b|a b].
  - send_cases a b d; cbn [after]; try assumption.
    + cbn [friendships withFriendships].
      apply nth_error_updated; [assumption|].
      apply find_some in Hr as [Hr Hm].
      now apply whereId_other_direction
        with (friendships d) a b declined.
    + now apply nth_error_inserted.
  - destruct Hout as [Hba Hab].
    assert (Hmiss : matching b a requested x = false)
      by now rewrite matching_sameDirection, Hba.
    assert (Hi' : nth_error (answered a b d accepted) i = Some x)
      by (unfold answered; now apply nth_error_updated).
    accept_cases a b d; cbn [after]; try assumption.
    + cbn [friendships withFriendships].
      apply nth_error_updated; [assumption|].
      apply find_some in Ho as [Ho Hm].
      apply whereId_other_direction
        with (answered a b d accepted) a b requested; try assumption.
      * unfold answered. now rewrite ids_updated.
      * now apply nth_error_In with i.
    + now apply nth_error_inserted.
  - assert (Hmiss : matching b a requested x = false)
      by now rewrite matching_sameDirection, Hout.
    decline_cases a b d; cbn [after]; try assumption.
    cbn [friendships withFriendships]. unfold answered.
    now apply nth_error_updated.
Qed.

Lemma request_frame_witness :
  nth_error
    (friendships
       (after (call (Accept 2 1)
          {| users := [1; 2; 3];
             friendships := [mkFriendship 1 3 2 requested;
                             mkFriendship 2 1 2 requested];
             nextId := 3; uniqueDirection := true |}))) 0
  = Some (mkFriendship 1 3 2 requested).
Proof.
  assert (Hwf : well_formed
                  {| users := [1; 2; 3];
                     friendships := [mkFriendship 1 3 2 requested;
                                     mkFriendship 2 1 2 requested];
                     nextId := 3; uniqueDirection := true |}).
  { split; simpl.
    - repeat constructor; simpl; intuition discriminate.
    - repeat constructor; simpl; lia. }
  exact (request_frame (Accept 2 1) _ 0%nat (mkFriendship 1 3 2 requested)
           Hwf eq_refl (conj eq_refl eq_refl)).
Defined.

Lemma map_fixed {A : Type} (g : A -> A) (l : list A) :
  (forall x, In x l -> g x = x) -> map g l = l.
Proof.
  intros H. induction l as [|x l IH]; [reflexivity|].
  simpl. rewrite (H x (or_introl eq_refl)). f_equal.
  apply IH. intros y Hy. apply H. now right.
Qed.

Lemma setStatus_back (s : FriendshipStatus) (r : Friendship) :
  setStatus (status r) (setStatus s r) = r.
Proof. now destruct r. Qed.

Lemma withFriendships_same (d d1 : Database) :
  users d1 = users d -> nextId d1 = nextId d ->
  uniqueDirection d1 = uniqueDirection d ->
  withFriendships (friendships d) d1 = d.
Proof.
  destruct d, d1. simpl. intros -> -> ->. reflexivity.
Qed.

(** X13.  Declining and re-sending is a round trip.  In a store whose ids are
    distinct, when [B] is a known user and the only row of the direction
    [(A, B)] is requested, [decline] by [B] followed by [send] by [A] both
    succeed and give back exactly the store they started from: same rows,
    same ids, same statuses, nothing inserted. *)
Theorem decline_resend_round_trip (A B : Id) (d : Database) (r : Friendship) :
  well_formed d -> In B (users d) ->
  direction A B d = [r] -> status r = requested ->
  result (call (Decline B A) d) = Ok tt
  /\ result (call (Send A B) (after (call (Decline B A) d))) = Ok tt
  /\ after (call (Send A B) (after (call (Decline B A) d))) = d.
Proof.
  intros [Hnd _] HB Hd Hs.
  destruct (find_sole_requested _ _ _ _ Hd Hs) as [Hfind _].
  destruct (direction_sole_in _ _ _ _ Hd) as [Hr Hsd].
  assert (Hmr : matching A B requested r = true).
  { rewrite matching_sameDirection, Hsd. now apply whereStatus_spec. }
  rewrite (decline_runs B A d r Hfind). cbn [result after].
  set (d1 := withFriendships (answered B A d declined) d).
  (* the re-send finds the row that was just declined *)
  assert (Hin : In (setStatus declined r) (friendships d1)).
  { cbn [d1 friendships withFriendships]. unfold answered.
    apply in_map_iff. exists r. split; [now apply updated_hit|assumption]. }
  assert (Hmd : matching A B declined (setStatus declined r) = true).
  { apply matching_spec. apply sameDirection_spec in Hsd as [Hu Hf].
    simpl. auto. }
  destruct (find_present _ _ _ Hin Hmd) as (o & Ho & Hino & Hmo).
  assert (Eo : o = setStatus declined r).
  { assert (Hod : In o (filter (sameDirection A B) (friendships d1))).
    { apply filter_In. split; [assumption|].
      rewrite matching_sameDirection in Hmo.
      now apply andb_true_iff in Hmo. }
    cbn [d1 friendships withFriendships] in Hod. unfold answered in Hod.
    rewrite direction_updated in Hod. fold (direction A B d) in Hod.
    rewrite Hd in Hod. cbn [map] in Hod.
    rewrite updated_hit in Hod by assumption.
    destruct Hod as [<-|[]]. reflexivity. }
  rewrite (send_resends A B d1 o HB Ho). cbn [result after].
  split; [reflexivity|split; [reflexivity|]].
  assert (Erows : map (updated requested (whereId (id o))) (friendships d1)
                  = friendships d).
  { cbn [d1 friendships withFriendships]. unfold answered.
    rewrite map_map. apply map_fixed. intros x Hx.
    subst o. cbn [id setStatus].
    destruct (matching A B requested x) eqn:Ex.
    - assert (x = r).
      { apply (direction_sole A B d r x Hd Hx).
        rewrite matching_sameDirection in Ex.
        now apply andb_true_iff in Ex. }
      subst x. rewrite (updated_hit declined) by assumption.
      rewrite updated_hit by (unfold whereId; apply Z.eqb_refl).
      rewrite <- Hs. apply setStatus_back.
    - rewrite (updated_miss declined) by assumption.
      apply updated_miss.
      destruct (whereId (id r) x) eqn:E; [|reflexivity].
      apply (whereId_row _ _ _ Hnd Hr Hx) in E. subst x. congruence. }
  rewrite Erows. now apply withFriendships_same.
Qed.

Lemma decline_resend_round_trip_witness :
  after (call (Send 1 2)
     (after (call (Decline 2 1)
        {| users := [1; 2];
           friendships := [mkFriendship 1 1 2 requested];
           nextId := 2; uniqueDirection := true |})))
  = {| users := [1; 2];
       friendships := [mkFriendship 1 1 2 requested];
       nextId := 2; uniqueDirection := true |}.
Proof.
  assert (Hwf : well_formed
                  {| users := [1; 2];
                     friendships := [mkFriendship 1 1 2 requested];
                     nextId := 2; uniqueDirection := true |}).
  { split; simpl.
    - repeat constructor; simpl; intuition.
    - repeat constructor; simpl; lia. }
  assert (HB : In 2 (users
                 {| users := [1; 2];
                    friendships := [mkFriendship 1 1 2 requested];
                    nextId := 2; uniqueDirection := true |}))
    by (simpl; right; left; reflexivity).
  exact (proj2 (proj2
    (decline_resend_round_trip 1 2 _ (mkFriendship 1 1 2 requested)
       Hwf HB eq_refl eq_refl))).
Defined.

Lemma filter_at_most_one {A : Type} (p : A -> bool) (l : list A) (x y : A) :
  (length (filter p l) <= 1)%nat ->
  In x l -> p x = true -> In y l -> p y = true -> x = y.
Proof.
  intros Hlen Hx Hpx Hy Hpy.
  assert (Hfx : In x (filter p l)) by (apply filter_In; now split).
  assert (Hfy : In y (filter p l)) by (apply filter_In; now split).
  destruct (filter p l) as [|z [|z' l']]; simpl in *.
  - destruct Hfx.
  - destruct Hfx as [<-|[]], Hfy as [<-|[]]. reflexivity.
  - lia.
Qed.

(** X14.  Sending twice is refused by a table that enforces one row per
    direction.  When such a store has at most one row per direction and
    [send] by [a] to [b] succeeds, a second [send] by [a] to [b] finds
    nothing to re-send, issues an insert, and the store rejects it: the
    caller gets [ConstraintViolation] and the store keeps the single
    requested row. *)
Theorem send_twice_rejected (a b : Id) (d : Database) :
  uniqueDirection d = true -> single_direction d ->
  result (call (Send a b) d) = Ok tt ->
  call (Send a b) (after (call (Send a b) d))
  = {| result := Throw ConstraintViolation;
       statements :=
         [SelectFromUsers (Some b); SelectFromFriendships None;
          InsertIntoFriendships a b requested];
       after := after (call (Send a b) d) |}.
Proof.
  intros Hu Hone Hok.
  destruct (send_leaves_request a b d Hok) as (x & Hx & Hm).
  pose proof (effect_single_direction _ _ (call_effect (Send a b) d) Hu Hone)
    as Hone'.
  pose proof (effect_uniqueDirection _ _ (call_effect (Send a b) d)) as Hu'.
  assert (HB : In b (users d)).
  { revert Hok. send_cases a b d; cbn [result]; intros H;
      try discriminate H; assumption. }
  assert (Husers : users (after (call (Send a b) d)) = users d).
  { destruct (call_effect (Send a b) d); reflexivity. }
  set (d' := after (call (Send a b) d)) in *.
  assert (Hsd : sameDirection a b x = true).
  { rewrite matching_sameDirection in Hm. now apply andb_true_iff in Hm. }
  apply send_rejected.
  - now rewrite Husers.
  - apply find_absent. intros y Hy.
    destruct (matching a b declined y) eqn:E; [|reflexivity].
    assert (Hsdy : sameDirection a b y = true).
    { rewrite matching_sameDirection in E. now apply andb_true_iff in E. }
    assert (x = y)
      by (apply (filter_at_most_one (sameDirection a b) (friendships d'));
          try assumption; apply Hone').
    subst y. apply matching_spec in Hm as (_ & _ & Hs1).
    apply matching_spec in E as (_ & _ & Hs2). congruence.
  - rewrite Hu', Hu. cbn [andb]. now apply existsb_present with x.
Qed.

Lemma send_twice_rejected_witness :
  result (call (Send 1 2)
            (after (call (Send 1 2) (emptyStore [1; 2] true))))
  = Throw ConstraintViolation.
Proof.
  assert (Hone : single_direction (emptyStore [1; 2] true))
    by (intros u f; simpl; lia).
  exact (f_equal result
    (send_twice_rejected 1 2 (emptyStore [1; 2] true)
       eq_refl Hone eq_refl)).
Defined.

(** X15.  [accept] and [decline] never consult the [users] table: neither
    the guard nor the mutation checks that the two users exist.  Replacing
    the [users] table by any other leaves the result, the statements issued
    and the resulting [friendships] table of an answer unchanged. *)
Theorem answer_ignores_users (a b : Id) (d : Database) (us : list Id)
  (c : Call) :
  c = Accept a b \/ c = Decline a b ->
  let d' := {| users := us; friendships := friendships d;
               nextId := nextId d; uniqueDirection := uniqueDirection d |} in
  result (call c d') = result (call c d)
  /\ statements (call c d') = statements (call c d)
  /\ friendships (after (call c d')) = friendships (after (call c d)).
Proof.
  intros Hc d'.
  assert (Hans : forall s, answered a b d' s = answered a b d s)
    by reflexivity.
  destruct Hc as [->| ->].
  - accept_cases a b d.
    + rewrite (accept_updates a b d' r o) by (try rewrite Hans; assumption).
      repeat split; reflexivity.
    + rewrite (accept_rejected a b d' r)
        by (try rewrite Hans; assumption).
      repeat split; reflexivity.
    + rewrite (accept_inserts a b d' r)
        by (try rewrite Hans; assumption).
      repeat split; reflexivity.
    + rewrite (accept_not_requested a b d') by assumption.
      repeat split; reflexivity.
  - decline_cases a b d.
    + rewrite (decline_runs a b d' r) by assumption.
      repeat split; reflexivity.
    + rewrite (decline_not_requested a b d') by assumption.
      repeat split; reflexivity.
Qed.

Lemma answer_ignores_users_witness :
  result
    (call (Accept 2 1)
       {| users := [];
          friendships := [mkFriendship 1 1 2 requested];
          nextId := 2; uniqueDirection := true |})
  = Ok tt.
Proof.
  exact (proj1
    (answer_ignores_users 2 1
       {| users := [1; 2];
          friendships := [mkFriendship 1 1 2 requested];
          nextId := 2; uniqueDirection := true |}
       [] (Accept 2 1) (or_introl eq_refl))).
Defined.
